(** * Seat allocation for the ULEAM admission system (testv2.ts)

    A shallow embedding of the allocation core of [src/testv2.ts]:
    the [Aspirante] constructor, [CupoValidatorAdapter.puedeAcceder],
    [AsignacionService.configurarCarrera], [ejecutarAsignacionAutomatica],
    [modificarManualmente] and [notificar], together with the seed data
    of [main].  The older variant of the service kept in
    [src/unnamed/part_000] is embedded in [Module Anterior].

    Modelling conventions.
    - JavaScript objects are mutable and shared: candidates live in an
      object store ([objetos], a reference is an index) and both the
      repository and the arrays handed to the batch hold references.
    - Scores, identifiers, group codes and seat counters carry integer
      values in the program; they are modelled as [Z].  The only place
      where a non-integer [number] arises is [cupos * 0.30] and
      [cupos * 0.70] in [configurarCarrera]; there the IEEE 754 binary64
      product is computed with the Standard Library's [SpecFloat].
    - [Array.prototype.sort] is stable (ECMAScript 2019); it is modelled
      by a stable insertion sort parameterised by the comparator.
    - [toUpperCase] is modelled on the ASCII letters. *)

From Stdlib Require Import ZArith Lia Ascii String SpecFloat.
From Stdlib Require Import Sorting.Sorted.
From stdpp Require Import base option list gmap strings pretty sorting.

Local Open Scope string_scope.
Local Open Scope list_scope.
Local Open Scope Z_scope.

(** ** JavaScript primitives used by the program *)

(** [String.prototype.toUpperCase], on ASCII letters: a character outside
    ASCII is left as it is, where the host also maps letters such as [í].
    The names of [src/testv2.ts] are ASCII, and no proof looks inside this
    function. *)
Definition upper_ascii (c : ascii) : ascii :=
  let n := N_of_ascii c in
  if ((97 <=? n) && (n <=? 122))%N then ascii_of_N (n - 32) else c.

Fixpoint toUpperCase (s : string) : string :=
  match s with
  | EmptyString => EmptyString
  | String c r => String (upper_ascii c) (toUpperCase r)
  end.

(** The [number] type where it is not integral: IEEE 754 binary64. *)
Module Number.
Definition prec : Z := 53.
Definition emax : Z := 1024.

(** An integer literal or integer-valued argument as a double. *)
Definition of_Z (n : Z) : spec_float :=
  match n with
  | Z0 => S754_zero false
  | _ => binary_normalize prec emax n 0 false
  end.

(** The literals [0.30] and [0.70]: the doubles nearest to 3/10 and 7/10
    (see [lit_030_nearest] and [lit_070_nearest]). *)
Definition lit_030 : spec_float := S754_finite false 5404319552844595 (-54).
Definition lit_070 : spec_float := S754_finite false 6305039478318694 (-53).

(** The [*] operator. *)
Definition mul (x y : spec_float) : spec_float := SFmul prec emax x y.

(** [Math.floor] of a finite double, as an integer.  [NaN] and the
    infinities have no integer value; they do not arise from the seat
    counts the program configures and are sent to [0] here. *)
Definition floor (x : spec_float) : Z :=
  match x with
  | S754_finite s m e =>
      let v := if s then Z.neg m else Z.pos m in
      if 0 <=? e then Z.shiftl v e else Z.shiftr v (- e)
  | _ => 0
  end.
End Number.

(** [Array.prototype.sort(cmp)]: [cmp a b <= 0] keeps [a] before [b].
    Elements are inserted from the right, so an element stays in front
    of every later element it compares equal to. *)
Section ArraySort.
Context {A : Type} (cmp : A → A → Z).

Fixpoint insertar (x : A) (l : list A) : list A :=
  match l with
  | [] => [x]
  | y :: l' => if cmp x y <=? 0 then x :: l else y :: insertar x l'
  end.

Definition Array_sort (l : list A) : list A := foldr insertar [] l.
End ArraySort.

(** ** Data model *)

Inductive EstadoCupo := PENDIENTE | ACEPTADO | RECHAZADO.

Global Instance EstadoCupo_eq_dec : EqDecision EstadoCupo.
Proof. solve_decision. Defined.

Module Aspirante.
Record t := mk {
  id : Z;
  nombre : string;
  puntaje : Z;
  carreraDeseada : string;
  grupos : list Z;
  carreraAsignada : option string;
  grupoAsignadoFinal : option string;
  estadoCupo : EstadoCupo
}.

(** [asp.estadoCupo = e] *)
Definition con_estado (e : EstadoCupo) (a : t) : t :=
  mk (id a) (nombre a) (puntaje a) (carreraDeseada a) (grupos a)
     (carreraAsignada a) (grupoAsignadoFinal a) e.

(** The three assignments of an acceptance:
    [estadoCupo = "ACEPTADO"; carreraAsignada = c; grupoAsignadoFinal = g]. *)
Definition aceptar (c g : string) (a : t) : t :=
  mk (id a) (nombre a) (puntaje a) (carreraDeseada a) (grupos a)
     (Some c) (Some g) ACEPTADO.
End Aspirante.

Module ICarrera.
Record t := mk {
  nombre : string;
  minPuntaje : Z;
  segmentos : gmap Z Z
}.

(** [carrera.segmentos.set(g, n)] *)
Definition set_segmento (g n : Z) (c : t) : t :=
  mk (nombre c) (minPuntaje c) (<[g := n]> (segmentos c)).
End ICarrera.

(** [new Aspirante(id, nombre, puntaje, carreraDeseada, grupos, tieneTitulo)] *)
Definition nuevoAspirante (id : Z) (nombre : string) (puntaje : Z)
    (carreraDeseada : string) (grupos : list Z) (tieneTitulo : bool) : Aspirante.t :=
  Aspirante.mk id nombre puntaje carreraDeseada
    (Array_sort (λ a b, a - b) (if tieneTitulo then [7] else grupos ++ [7]))
    None None PENDIENTE.

(** One call [o.update(nombre, estado, detalle)] received by observer [o]. *)
Record Notificacion := {
  observador : nat;
  notif_nombre : string;
  notif_estado : EstadoCupo;
  notif_detalle : string
}.

(** The program state: the object store, the repository's array of
    references (registration order), the service's catalog and observer
    list, and the notifications delivered so far. *)
Record Sistema := {
  objetos : list Aspirante.t;
  aspirantes : list nat;
  carreras : gmap string ICarrera.t;
  observadores : list nat;
  entregadas : list Notificacion
}.

Definition con_objetos (o : list Aspirante.t) (st : Sistema) : Sistema :=
  Build_Sistema o (aspirantes st) (carreras st) (observadores st) (entregadas st).
Definition con_carreras (c : gmap string ICarrera.t) (st : Sistema) : Sistema :=
  Build_Sistema (objetos st) (aspirantes st) c (observadores st) (entregadas st).
Definition con_entregadas (n : list Notificacion) (st : Sistema) : Sistema :=
  Build_Sistema (objetos st) (aspirantes st) (carreras st) (observadores st) n.

(** ** Operations *)

(** [AspiranteRepository.registrar]: the new object gets the next
    reference and is pushed on the repository's array. *)
Definition registrar (a : Aspirante.t) (st : Sistema) : Sistema :=
  Build_Sistema (objetos st ++ [a]) (aspirantes st ++ [length (objetos st)])
    (carreras st) (observadores st) (entregadas st).

(** [AsignacionService.agregarObservador] *)
Definition agregarObservador (o : nat) (st : Sistema) : Sistema :=
  Build_Sistema (objetos st) (aspirantes st) (carreras st)
    (observadores st ++ [o]) (entregadas st).

(** [CupoValidatorAdapter.puedeAcceder] *)
Definition puedeAcceder (carrera : ICarrera.t) (grupoId : Z) : bool :=
  let disponibles := default 0 (ICarrera.segmentos carrera !! grupoId) in
  0 <? disponibles.

(** [AsignacionService.configurarCarrera], acting on the catalog.  The
    optional parameter [min] defaults to 70. *)
Definition configurarCarrera (nombre : string) (cupos : Z) (min : option Z)
    (cat : gmap string ICarrera.t) : gmap string ICarrera.t :=
  let segmentos : gmap Z Z :=
    <[7 := Number.floor (Number.mul (Number.of_Z cupos) Number.lit_070)]>
      (<[3 := Number.floor (Number.mul (Number.of_Z cupos) Number.lit_030)]> ∅) in
  <[toUpperCase nombre := ICarrera.mk nombre (default 70 min) segmentos]> cat.

(** The [for (const grupoId of asp.grupos)] loop of the batch: the first
    group with a free seat takes it and the loop breaks. *)
Fixpoint recorrerGrupos (carrera : ICarrera.t) (asp : Aspirante.t)
    (grupos : list Z) : ICarrera.t * Aspirante.t :=
  match grupos with
  | [] => (carrera, asp)
  | grupoId :: resto =>
      if puedeAcceder carrera grupoId then
        let actual := default 0 (ICarrera.segmentos carrera !! grupoId) in
        (ICarrera.set_segmento grupoId (actual - 1) carrera,
         Aspirante.aceptar (ICarrera.nombre carrera)
           ("Segmento-" +:+ pretty grupoId) asp)
      else recorrerGrupos carrera asp resto
  end.

(** The body of [ordenados.forEach(asp => ...)] for the object behind
    reference [ref]. *)
Definition procesar (st : Sistema) (ref : nat) : Sistema :=
  match objetos st !! ref with
  | None => st
  | Some asp =>
      let clave := toUpperCase (Aspirante.carreraDeseada asp) in
      let rechazar :=
        con_objetos (<[ref := Aspirante.con_estado RECHAZADO asp]> (objetos st)) st in
      match carreras st !! clave with
      | None => rechazar
      | Some carrera =>
          if Aspirante.puntaje asp <? ICarrera.minPuntaje carrera then rechazar
          else
            let '(carrera', asp') :=
              recorrerGrupos carrera asp (Aspirante.grupos asp) in
            let asp'' :=
              if decide (Aspirante.estadoCupo asp' = PENDIENTE)
              then Aspirante.con_estado RECHAZADO asp' else asp' in
            con_carreras (<[clave := carrera']> (carreras st))
              (con_objetos (<[ref := asp'']> (objetos st)) st)
      end
  end.

(** [asp.puntaje] read through a reference. *)
Definition puntajeDe (st : Sistema) (ref : nat) : Z :=
  from_option Aspirante.puntaje 0 (objetos st !! ref).

(** [[...aspirantes].sort((a, b) => b.puntaje - a.puntaje)] *)
Definition ordenados (st : Sistema) (refs : list nat) : list nat :=
  Array_sort (λ a b, puntajeDe st b - puntajeDe st a) refs.

(** [AsignacionService.ejecutarAsignacionAutomatica] *)
Definition ejecutarAsignacionAutomatica (refs : list nat) (st : Sistema) : Sistema :=
  foldl procesar st (ordenados st refs).

(** [AsignacionService.notificar] *)
Definition notificar (asp : Aspirante.t) (detalle : string) (st : Sistema) : Sistema :=
  con_entregadas
    (entregadas st ++
     map (λ o, Build_Notificacion o (Aspirante.nombre asp)
                 (Aspirante.estadoCupo asp) detalle) (observadores st))
    st.

(** [repo.obtenerTodos().find(a => a.id === id)] *)
Definition buscarPorId (id : Z) (st : Sistema) : option nat :=
  List.find
    (λ ref, from_option (λ a, Aspirante.id a =? id) false (objetos st !! ref))
    (aspirantes st).

(** [AsignacionService.modificarManualmente]: the returned message and the
    state after the call. *)
Definition modificarManualmente (id : Z) (nuevoEstado : EstadoCupo)
    (st : Sistema) : string * Sistema :=
  match buscarPorId id st with
  | None => ("ID no encontrado.", st)
  | Some ref =>
      match objetos st !! ref with
      | None => ("ID no encontrado.", st)
      | Some asp =>
          let carrera := carreras st !! toUpperCase (Aspirante.carreraDeseada asp) in
          match nuevoEstado, carrera with
          | ACEPTADO, Some carrera =>
              let asp' :=
                Aspirante.aceptar (ICarrera.nombre carrera) "ADMIN_FORZADO" asp in
              ("Estado: ACEPTADO.",
               notificar asp' "Asignación manual confirmada"
                 (con_objetos (<[ref := asp']> (objetos st)) st))
          | _, _ =>
              let asp' := Aspirante.con_estado nuevoEstado asp in
              ("Estado actualizado.",
               notificar asp' "Cambio manual realizado"
                 (con_objetos (<[ref := asp']> (objetos st)) st))
          end
      end
  end.

(** A call made on the service from outside. *)
Inductive Llamada :=
  | Automatica (refs : list nat)
  | Manual (id : Z) (nuevoEstado : EstadoCupo).

Definition ejecutar (st : Sistema) (ll : Llamada) : Sistema :=
  match ll with
  | Automatica refs => ejecutarAsignacionAutomatica refs st
  | Manual id e => (modificarManualmente id e st).2
  end.

Definition ejecutarTodas (st : Sistema) (lls : list Llamada) : Sistema :=
  foldl ejecutar st lls.

(** ** The program of [main] *)

(** [new AsignacionService()] on an empty repository. *)
Definition servicioNuevo : Sistema :=
  Build_Sistema [] []
    (configurarCarrera "INGENIERIA" 15 (Some 80)
       (configurarCarrera "MEDICINA" 10 (Some 90) ∅))
    [] [].

Definition bdFicticia : list Aspirante.t := [
  nuevoAspirante 1 "Ana Garcia" 98 "MEDICINA" [3] false;
  nuevoAspirante 2 "Luis Pincay" 85 "INGENIERIA" [2] false;
  nuevoAspirante 3 "Maria Shuar" 92 "MEDICINA" [5] false;
  nuevoAspirante 4 "Jose Zambrano" 70 "INGENIERIA" [] false;
  nuevoAspirante 5 "Kevin Meza" 95 "MEDICINA" [1] false;
  nuevoAspirante 6 "Carla Vera" 88 "MEDICINA" [3] false;
  nuevoAspirante 7 "Juan Castro" 99 "MEDICINA" [] true;
  nuevoAspirante 8 "Sofia Reyes" 91 "MEDICINA" [2] false;
  nuevoAspirante 9 "Diego Luna" 82 "INGENIERIA" [6] false;
  nuevoAspirante 10 "Elena Paz" 94 "MEDICINA" [4] false;
  nuevoAspirante 11 "Roberto Solis" 89 "INGENIERIA" [3] false;
  nuevoAspirante 12 "Lucia Fernandez" 93 "MEDICINA" [2] false;
  nuevoAspirante 13 "Ricardo Palma" 81 "INGENIERIA" [5] false;
  nuevoAspirante 14 "Marta Gomez" 75 "INGENIERIA" [] false;
  nuevoAspirante 15 "Andres Pico" 96 "MEDICINA" [3] false;
  nuevoAspirante 16 "Paola Ruiz" 87 "INGENIERIA" [1] false;
  nuevoAspirante 17 "Fernando Toro" 90 "MEDICINA" [6] false;
  nuevoAspirante 18 "Diana Vite" 84 "INGENIERIA" [3] false;
  nuevoAspirante 19 "Gabriel Moreira" 97 "MEDICINA" [3] false;
  nuevoAspirante 20 "Ximena Loor" 79 "INGENIERIA" [2] false
].

(** The state of [main] before the batch: service built, one observer
    subscribed, the twenty candidates registered. *)
Definition sistemaInicial : Sistema :=
  foldl (λ st a, registrar a st) (agregarObservador 0 servicioNuevo) bdFicticia.

(** The state of [main] when the menu loop starts. *)
Definition sistemaTrasAsignacion : Sistema :=
  ejecutarAsignacionAutomatica (aspirantes sistemaInicial) sistemaInicial.

(** ** Predicates used in the statements *)

Definition claveDe (asp : Aspirante.t) : string :=
  toUpperCase (Aspirante.carreraDeseada asp).

Definition etiqueta (grupoId : Z) : string := "Segmento-" +:+ pretty grupoId.

(** The four ways the body of the [forEach] can go for a candidate. *)
Inductive paso (st : Sistema) (ref : nat) (asp : Aspirante.t) : Sistema → Prop :=
  | paso_sin_carrera :
      carreras st !! claveDe asp = None →
      paso st ref asp
        (con_objetos (<[ref := Aspirante.con_estado RECHAZADO asp]> (objetos st)) st)
  | paso_puntaje carrera :
      carreras st !! claveDe asp = Some carrera →
      Aspirante.puntaje asp < ICarrera.minPuntaje carrera →
      paso st ref asp
        (con_objetos (<[ref := Aspirante.con_estado RECHAZADO asp]> (objetos st)) st)
  | paso_sin_cupo carrera :
      carreras st !! claveDe asp = Some carrera →
      ICarrera.minPuntaje carrera ≤ Aspirante.puntaje asp →
      Forall (λ g, puedeAcceder carrera g = false) (Aspirante.grupos asp) →
      paso st ref asp
        (con_objetos
           (<[ref := if decide (Aspirante.estadoCupo asp = PENDIENTE)
                     then Aspirante.con_estado RECHAZADO asp else asp]> (objetos st)) st)
  | paso_cupo carrera pre g post n :
      carreras st !! claveDe asp = Some carrera →
      ICarrera.minPuntaje carrera ≤ Aspirante.puntaje asp →
      Aspirante.grupos asp = pre ++ g :: post →
      Forall (λ g, puedeAcceder carrera g = false) pre →
      ICarrera.segmentos carrera !! g = Some n → 0 < n →
      paso st ref asp
        (con_carreras
           (<[claveDe asp := ICarrera.set_segmento g (n - 1) carrera]> (carreras st))
           (con_objetos
              (<[ref := Aspirante.aceptar (ICarrera.nombre carrera) (etiqueta g) asp]>
                 (objetos st)) st)).

(** The constructor-time data of a candidate and of a programme. *)
Definition datos (a : Aspirante.t) : Z * string * Z * string * list Z :=
  (Aspirante.id a, Aspirante.nombre a, Aspirante.puntaje a,
   Aspirante.carreraDeseada a, Aspirante.grupos a).

Definition ficha (c : ICarrera.t) : string * Z :=
  (ICarrera.nombre c, ICarrera.minPuntaje c).

Definition conserva (st st' : Sistema) : Prop :=
  aspirantes st' = aspirantes st ∧
  observadores st' = observadores st ∧
  datos <$> objetos st' = datos <$> objetos st ∧
  ficha <$> carreras st' = ficha <$> carreras st.

Definition capacidades_no_negativas (st : Sistema) : Prop :=
  map_Forall (λ _ c, map_Forall (λ _ n, 0 ≤ n) (ICarrera.segmentos c))
    (carreras st).

(** A double that is not negative (or is [NaN]). *)
Definition sin_signo (x : spec_float) : Prop :=
  match x with
  | S754_zero s | S754_infinity s | S754_finite s _ _ => s = false
  | S754_nan => True
  end.

Definition registrado (id : Z) (st : Sistema) : Prop :=
  ∃ ref a, ref ∈ aspirantes st ∧ objetos st !! ref = Some a ∧ Aspirante.id a = id.

(** The guard of the batch, [!carrera || asp.puntaje < carrera.minPuntaje]. *)
Definition sin_carrera_o_puntaje (st : Sistema) (asp : Aspirante.t) : Prop :=
  match carreras st !! claveDe asp with
  | None => True
  | Some carrera => Aspirante.puntaje asp < ICarrera.minPuntaje carrera
  end.

(** The guard fails: the programme exists and the score reaches its minimum. *)
Definition alcanza_minimo (st : Sistema) (asp : Aspirante.t) : Prop :=
  ∃ carrera, carreras st !! claveDe asp = Some carrera ∧
    ICarrera.minPuntaje carrera ≤ Aspirante.puntaje asp.

(** Catalogs built by calls of [configurarCarrera] only, as the service
    constructor does. *)
Inductive configurado : gmap string ICarrera.t → Prop :=
  | configurado_vacio : configurado ∅
  | configurado_carrera nombre cupos min cat :
      configurado cat → configurado (configurarCarrera nombre cupos min cat).

Definition solo_3_y_7 (st : Sistema) : Prop :=
  map_Forall (λ _ c, dom (ICarrera.segmentos c) ⊆ ({[3; 7]} : gset Z))
    (carreras st).

(** How one or more steps of the batch may leave an accepted candidate:
    untouched since it was already accepted, or seated under segment 3
    or segment 7, one of its own groups. *)
Definition aceptado_por_3_o_7 (a a' : Aspirante.t) : Prop :=
  datos a' = datos a ∧
  (Aspirante.estadoCupo a' = ACEPTADO →
   (Aspirante.estadoCupo a = ACEPTADO ∧
    Aspirante.carreraAsignada a' = Aspirante.carreraAsignada a ∧
    Aspirante.grupoAsignadoFinal a' = Aspirante.grupoAsignadoFinal a) ∨
   (Aspirante.grupoAsignadoFinal a' = Some "Segmento-3" ∧ 3 ∈ Aspirante.grupos a) ∨
   (Aspirante.grupoAsignadoFinal a' = Some "Segmento-7" ∧ 7 ∈ Aspirante.grupos a)).

(** The [segmentos] map stored for [nombre] by a configuration call. *)
Definition segmentosConfigurados (nombre : string) (cupos : Z) (min : option Z)
    (cat : gmap string ICarrera.t) : option (gmap Z Z) :=
  ICarrera.segmentos <$> configurarCarrera nombre cupos min cat !! toUpperCase nombre.

(** The split as the specification words it, in exact arithmetic:
    merit [floor(0.30 * totalSeats)], general [floor(0.70 * totalSeats)]. *)
Definition reparto_segun_spec (totalSeats : Z) : gmap Z Z :=
  <[7 := 7 * totalSeats / 10]> (<[3 := 3 * totalSeats / 10]> ∅).

(** The stored entries equal the exact floors. *)
Definition reparto_coincide (cupos : Z) : bool :=
  (Number.floor (Number.mul (Number.of_Z cupos) Number.lit_030) =? 3 * cupos / 10) &&
  (Number.floor (Number.mul (Number.of_Z cupos) Number.lit_070) =? 7 * cupos / 10).

(** Assigned programme and status agree, and an accepted candidate
    passes the guard of the batch. *)
Definition coherente (st : Sistema) (a : Aspirante.t) : Prop :=
  (Aspirante.estadoCupo a = ACEPTADO ↔ is_Some (Aspirante.carreraAsignada a)) ∧
  (Aspirante.estadoCupo a = ACEPTADO → alcanza_minimo st a).

Definition todos_coherentes (st : Sistema) : Prop :=
  ∀ ref a, objetos st !! ref = Some a → coherente st a.

(** ** The earlier service of [src/unnamed/part_000]

    Its [procesarEstado] is the counterpart of [modificarManualmente]:
    one candidate object, one catalog of programmes with a single seat
    counter each. *)
Module Anterior.

Module Aspirante.
Record t := mk {
  nombre : string;
  apellido : string;
  cedula : string;
  puntaje : Z;
  carreraDeseada : string;
  carreraAsignada : option string;
  estadoCupo : EstadoCupo
}.
End Aspirante.

Module ICarrera.
Record t := mk {
  nombre : string;
  cupos : Z;
  minPuntaje : Z
}.
End ICarrera.

(** [ValidadorAdapter.validar] *)
Definition validar (aspirante : Aspirante.t) (carrera : ICarrera.t) : bool :=
  if Aspirante.puntaje aspirante <? ICarrera.minPuntaje carrera then false
  else if ICarrera.cupos carrera <=? 0 then false
  else true.

(** [AsignacionService.procesarEstado]: the candidate and the catalog
    after the call, and the status published to the observers.  The
    optional [nombreCarrera] counts as given when it is a non-empty
    string. *)
Definition procesarEstado (aspirante : Aspirante.t) (nuevoEstado : EstadoCupo)
    (nombreCarrera : option string) (carreras : gmap string ICarrera.t)
    : Aspirante.t * gmap string ICarrera.t * (string * EstadoCupo) :=
  let dada :=
    match nombreCarrera with
    | Some (String c r) => Some (String c r)
    | _ => None
    end in
  let '(aspirante', carreras') :=
    match nuevoEstado, dada with
    | ACEPTADO, Some nc =>
        match carreras !! toUpperCase nc with
        | Some carrera =>
            if validar aspirante carrera then
              (Aspirante.mk (Aspirante.nombre aspirante) (Aspirante.apellido aspirante)
                 (Aspirante.cedula aspirante) (Aspirante.puntaje aspirante)
                 (Aspirante.carreraDeseada aspirante)
                 (Some (ICarrera.nombre carrera)) ACEPTADO,
               <[toUpperCase nc :=
                   ICarrera.mk (ICarrera.nombre carrera) (ICarrera.cupos carrera - 1)
                     (ICarrera.minPuntaje carrera)]> carreras)
            else (aspirante, carreras)
        | None => (aspirante, carreras)
        end
    | _, _ =>
        (Aspirante.mk (Aspirante.nombre aspirante) (Aspirante.apellido aspirante)
           (Aspirante.cedula aspirante) (Aspirante.puntaje aspirante)
           (Aspirante.carreraDeseada aspirante) None nuevoEstado,
         carreras)
    end in
  (aspirante', carreras',
   (Aspirante.nombre aspirante', Aspirante.estadoCupo aspirante')).

End Anterior.

(** The seats left for group [g] in the programme stored under [k]
    ([0] when either is missing, as [puedeAcceder] reads it). *)
Definition cupoDe (st : Sistema) (k : string) (g : Z) : Z :=
  default 0 (carreras st !! k ≫= λ c, ICarrera.segmentos c !! g).

(** ** Listing helpers of [Aspirante] *)

(** [Aspirante.obtenerIdentificacion] *)
Definition obtenerIdentificacion (a : Aspirante.t) : string :=
  "ASP-2025-ID-" +:+ pretty (Aspirante.id a).

(** The table [nombres] of [obtenerNombresGrupos]; a code that is not a
    key of it reads [undefined]. *)
Definition nombres (g : Z) : option string :=
  match g with
  | 1 => Some "Cuotas"
  | 2 => Some "Vulnerabilidad"
  | 3 => Some "Mérito"
  | 4 => Some "Otros"
  | 5 => Some "Pueblos"
  | 6 => Some "Régimen"
  | 7 => Some "General"
  | _ => None
  end.

(** [Array.prototype.join(sep)]; an [undefined] element prints as the
    empty string. *)
Definition Array_join (sep : string) (l : list (option string)) : string :=
  match l with
  | [] => ""
  | x :: r => foldl (λ acc y, acc +:+ sep +:+ default "" y) (default "" x) r
  end.

(** [Aspirante.obtenerNombresGrupos] *)
Definition obtenerNombresGrupos (a : Aspirante.t) : string :=
  Array_join ", " (nombres <$> Aspirante.grupos a).

(** ** Further predicates *)

(** Every reference held by the repository points into the object store. *)
Definition bien_formado (st : Sistema) : Prop :=
  Forall (λ ref, (ref < length (objetos st))%nat) (aspirantes st).

(** The object behind [ref] is accepted in the programme stored under [k]
    with the label of group [g]. *)
Definition sentadoEn (st : Sistema) (k : string) (g : Z) (ref : nat) : Prop :=
  ∃ a, objetos st !! ref = Some a ∧
    Aspirante.estadoCupo a = ACEPTADO ∧ claveDe a = k ∧
    Aspirante.grupoAsignadoFinal a = Some (etiqueta g).

Global Instance sentadoEn_dec st k g ref : Decision (sentadoEn st k g ref).
Proof.
  unfold sentadoEn. destruct (objetos st !! ref) as [a|].
  - destruct (decide (Aspirante.estadoCupo a = ACEPTADO ∧ claveDe a = k ∧
                      Aspirante.grupoAsignadoFinal a = Some (etiqueta g)))
      as [H|H].
    + left. by exists a.
    + right. intros (a' & [= <-] & H'). by apply H.
  - right. by intros (a' & [=] & _).
Defined.

(** How many of the candidates behind [refs] are so seated. *)
Definition sentados (st : Sistema) (k : string) (g : Z) (refs : list nat) : Z :=
  Z.of_nat (length (filter (sentadoEn st k g) refs)).

Definition estadoDe (st : Sistema) (ref : nat) : option EstadoCupo :=
  Aspirante.estadoCupo <$> objetos st !! ref.

(** [x] comes before [y] in the array [l]. *)
Definition precede {A} (l : list A) (x y : A) : Prop :=
  ∃ l1 l2 l3, l = l1 ++ x :: l2 ++ y :: l3.

(** ** The repository of the earlier service

    [AspiranteRepository] of [src/unnamed/part_000] keeps a [Map] from
    [cedula] to candidate.  A JavaScript [Map] iterates in the order of
    first insertion, and [set] on a key already present replaces the value
    in place. *)
Module RepositorioAnterior.

Fixpoint Map_set {V} (k : string) (v : V) (m : list (string * V))
    : list (string * V) :=
  match m with
  | [] => [(k, v)]
  | (k', v') :: r =>
      if decide (k' = k) then (k, v) :: r else (k', v') :: Map_set k v r
  end.

(** [registrar(a)]: [this.aspirantes.set(a.cedula, a)] *)
Definition registrar (a : Anterior.Aspirante.t)
    (repo : list (string * Anterior.Aspirante.t))
    : list (string * Anterior.Aspirante.t) :=
  Map_set (Anterior.Aspirante.cedula a) a repo.

(** [obtenerTodos()]: [Array.from(this.aspirantes.values())] *)
Definition obtenerTodos (repo : list (string * Anterior.Aspirante.t))
    : list Anterior.Aspirante.t :=
  snd <$> repo.

(** The repository after registering the candidates of [l], first to last,
    starting from the empty one. *)
Definition registrados (l : list Anterior.Aspirante.t)
    : list (string * Anterior.Aspirante.t) :=
  foldl (λ repo a, registrar a repo) [] l.

End RepositorioAnterior.

(** Every seat counter of the earlier catalog is non-negative. *)
Definition cupos_no_negativos (carreras : gmap string Anterior.ICarrera.t) : Prop :=
  map_Forall (λ _ c, 0 ≤ Anterior.ICarrera.cupos c) carreras.

(** A repository of the earlier service as [registrar] builds it: one
    entry per [cedula], stored under the candidate's own [cedula]. *)
Definition repositorio_ok (repo : list (string * Anterior.Aspirante.t)) : Prop :=
  NoDup (fst <$> repo) ∧
  Forall (λ kv, kv.1 = Anterior.Aspirante.cedula kv.2) repo.

(** [ValidadorAdapter.validar] succeeds for some programme stored under [k]. *)
Definition valida (aspirante : Anterior.Aspirante.t) (k : string)
    (carreras : gmap string Anterior.ICarrera.t) : Prop :=
  ∃ c, carreras !! k = Some c ∧
    Anterior.ICarrera.minPuntaje c ≤ Anterior.Aspirante.puntaje aspirante ∧
    0 < Anterior.ICarrera.cupos c.

(** [AsignacionService.procesarEstado] of [src/unnamed/part_000] with the
    host's [String.prototype.toUpperCase] left open: [mayusculas] stands
    for that function, whatever it maps (letters outside ASCII included).
    [Anterior.procesarEstado] is the instance at [toUpperCase]. *)
Section ProcesarEstadoCon.
Variable mayusculas : string → string.

Definition procesarEstadoCon (aspirante : Anterior.Aspirante.t)
    (nuevoEstado : EstadoCupo) (nombreCarrera : option string)
    (carreras : gmap string Anterior.ICarrera.t)
    : Anterior.Aspirante.t * gmap string Anterior.ICarrera.t * (string * EstadoCupo) :=
  let dada :=
    match nombreCarrera with
    | Some (String c r) => Some (String c r)
    | _ => None
    end in
  let '(aspirante', carreras') :=
    match nuevoEstado, dada with
    | ACEPTADO, Some nc =>
        match carreras !! mayusculas nc with
        | Some carrera =>
            if Anterior.validar aspirante carrera then
              (Anterior.Aspirante.mk
                 (Anterior.Aspirante.nombre aspirante)
                 (Anterior.Aspirante.apellido aspirante)
                 (Anterior.Aspirante.cedula aspirante)
                 (Anterior.Aspirante.puntaje aspirante)
                 (Anterior.Aspirante.carreraDeseada aspirante)
                 (Some (Anterior.ICarrera.nombre carrera)) ACEPTADO,
               <[mayusculas nc :=
                   Anterior.ICarrera.mk (Anterior.ICarrera.nombre carrera)
                     (Anterior.ICarrera.cupos carrera - 1)
                     (Anterior.ICarrera.minPuntaje carrera)]> carreras)
            else (aspirante, carreras)
        | None => (aspirante, carreras)
        end
    | _, _ =>
        (Anterior.Aspirante.mk
           (Anterior.Aspirante.nombre aspirante)
           (Anterior.Aspirante.apellido aspirante)
           (Anterior.Aspirante.cedula aspirante)
           (Anterior.Aspirante.puntaje aspirante)
           (Anterior.Aspirante.carreraDeseada aspirante) None nuevoEstado,
         carreras)
    end in
  (aspirante', carreras',
   (Anterior.Aspirante.nombre aspirante', Anterior.Aspirante.estadoCupo aspirante')).
End ProcesarEstadoCon.

(** The catalog of the earlier service, and an upper-casing function that
    maps the typed name [ingeniería civil] as the host does. *)
Definition carrerasAnteriores : gmap string Anterior.ICarrera.t :=
  <["DERECHO" := Anterior.ICarrera.mk "DERECHO" 120 85]>
    (<["MEDICINA" := Anterior.ICarrera.mk "MEDICINA" 50 90]>
       (<["INGENIERÍA CIVIL" := Anterior.ICarrera.mk "INGENIERÍA CIVIL" 100 80]> ∅)).

Definition mayusculasConTilde (s : string) : string :=
  if decide (s = "ingeniería civil") then "INGENIERÍA CIVIL" else toUpperCase s.

(** The object behind [ref] has a score of at least [p], or above [p]. *)
Definition puntajeAlMenos (st : Sistema) (p : Z) (ref : nat) : Prop :=
  ∃ b, objetos st !! ref = Some b ∧ p ≤ Aspirante.puntaje b.

Definition puntajeMayor (st : Sistema) (p : Z) (ref : nat) : Prop :=
  ∃ b, objetos st !! ref = Some b ∧ p < Aspirante.puntaje b.

Global Instance puntajeAlMenos_dec st p ref : Decision (puntajeAlMenos st p ref).
Proof.
  unfold puntajeAlMenos. destruct (objetos st !! ref) as [b|].
  - destruct (decide (p ≤ Aspirante.puntaje b)) as [H|H].
    + left. by exists b.
    + right. intros (b' & [= <-] & H'). by apply H.
  - right. by intros (b' & [=] & _).
Defined.

Global Instance puntajeMayor_dec st p ref : Decision (puntajeMayor st p ref).
Proof.
  unfold puntajeMayor. destruct (objetos st !! ref) as [b|].
  - destruct (decide (p < Aspirante.puntaje b)) as [H|H].
    + left. by exists b.
    + right. intros (b' & [= <-] & H'). by apply H.
  - right. by intros (b' & [=] & _).
Defined.

(** The candidates ranked ahead of one with score [p] that stands between
    [antes] and [despues] in the array: those before it with at least its
    score and those after it with a higher score. *)
Definition rivales (st : Sistema) (p : Z) (antes despues : list nat) : list nat :=
  filter (puntajeAlMenos st p) antes ++ filter (puntajeMayor st p) despues.

(** * Properties *)

(** ** Facts about the primitives *)

Lemma lit_030_nearest :
  Z.abs (10 * 5404319552844595 - 3 * 2 ^ 54) * 2 ≤ 10.
Proof. vm_compute. discriminate. Qed.

Lemma lit_070_nearest :
  Z.abs (10 * 6305039478318694 - 7 * 2 ^ 53) * 2 ≤ 10.
Proof. vm_compute. discriminate. Qed.

Section ArraySortFacts.
Context {A : Type} (cmp : A → A → Z).

Lemma insertar_Permutation x l : insertar cmp x l ≡ₚ x :: l.
Proof.
  induction l as [|y l IH]; simpl; [done|].
  destruct (cmp x y <=? 0); [done|].
  rewrite IH. apply Permutation_swap.
Qed.

Lemma Array_sort_Permutation l : Array_sort cmp l ≡ₚ l.
Proof.
  induction l as [|x l IH]; simpl; [done|].
  by rewrite insertar_Permutation, IH.
Qed.

(** Stability: the elements of a class [P] whose members compare as
    equal keep their input order. *)
Lemma insertar_filter (P : A → Prop) `{!∀ x, Decision (P x)} x l :
  (∀ y, P x → P y → cmp x y ≤ 0) →
  filter P (insertar cmp x l) = filter P (x :: l).
Proof.
  intros Hcls. induction l as [|y l IH]; simpl; [done|].
  destruct (Z.leb_spec (cmp x y) 0) as [Hle|Hgt]; [done|].
  rewrite !filter_cons in *.
  destruct (decide (P y)) as [Py|nPy], (decide (P x)) as [Px|nPx];
    rewrite IH; try done.
  specialize (Hcls y Px Py). lia.
Qed.

Lemma Array_sort_filter (P : A → Prop) `{!∀ x, Decision (P x)} l :
  (∀ x y, P x → P y → cmp x y ≤ 0) →
  filter P (Array_sort cmp l) = filter P l.
Proof.
  intros Hcls. induction l as [|x l IH]; simpl; [done|].
  rewrite insertar_filter by eauto.
  rewrite !filter_cons. by rewrite IH.
Qed.

Section Ordered.
Hypothesis cmp_total : ∀ x y, 0 < cmp x y → cmp y x ≤ 0.
Hypothesis cmp_trans : ∀ x y z, cmp x y ≤ 0 → cmp y z ≤ 0 → cmp x z ≤ 0.

Lemma insertar_sorted x l :
  StronglySorted (λ a b, cmp a b ≤ 0) l →
  StronglySorted (λ a b, cmp a b ≤ 0) (insertar cmp x l).
Proof.
  induction 1 as [|y l Hl IH Hy]; simpl.
  - repeat constructor.
  - destruct (Z.leb_spec (cmp x y) 0) as [Hle|Hgt].
    + constructor; [by constructor|].
      constructor; [done|].
      eapply Forall_impl; [exact Hy|]. intros z Hz. eauto.
    + constructor; [done|].
      rewrite insertar_Permutation. constructor; [eauto | done].
Qed.

Lemma Array_sort_sorted l :
  StronglySorted (λ a b, cmp a b ≤ 0) (Array_sort cmp l).
Proof.
  induction l as [|x l IH]; simpl; [constructor|].
  by apply insertar_sorted.
Qed.
End Ordered.
End ArraySortFacts.

(** ** The allocation step, case by case *)

Lemma puedeAcceder_true carrera g :
  puedeAcceder carrera g = true ↔
  ∃ n, ICarrera.segmentos carrera !! g = Some n ∧ 0 < n.
Proof.
  unfold puedeAcceder. destruct (ICarrera.segmentos carrera !! g) as [n|]; simpl.
  - rewrite Z.ltb_lt. split; [eauto|]. by intros (? & [= <-] & ?).
  - split; [done|]. by intros (? & ? & ?).
Qed.

Lemma puedeAcceder_false carrera g :
  puedeAcceder carrera g = false ↔
  default 0 (ICarrera.segmentos carrera !! g) ≤ 0.
Proof. unfold puedeAcceder. by rewrite Z.ltb_ge. Qed.

Lemma recorrerGrupos_casos carrera asp gs :
  (Forall (λ g, puedeAcceder carrera g = false) gs ∧
   recorrerGrupos carrera asp gs = (carrera, asp)) ∨
  (∃ pre g post n,
     gs = pre ++ g :: post ∧
     Forall (λ g, puedeAcceder carrera g = false) pre ∧
     ICarrera.segmentos carrera !! g = Some n ∧ 0 < n ∧
     recorrerGrupos carrera asp gs =
       (ICarrera.set_segmento g (n - 1) carrera,
        Aspirante.aceptar (ICarrera.nombre carrera) (etiqueta g) asp)).
Proof.
  induction gs as [|g gs IH]; simpl.
  - left. by split.
  - destruct (puedeAcceder carrera g) eqn:Hg.
    + right. apply puedeAcceder_true in Hg as (n & Hn & Hpos).
      exists [], g, gs, n. rewrite Hn. simpl. by repeat split.
    + destruct IH as [[Hall Heq]|(pre & g' & post & n & -> & Hpre & Hn & Hpos & Heq)].
      * left. split; [by constructor | done].
      * right. exists (g :: pre), g', post, n.
        repeat split; try done. by constructor.
Qed.

Lemma procesar_paso st ref asp :
  objetos st !! ref = Some asp → paso st ref asp (procesar st ref).
Proof.
  intros Hasp. unfold procesar. rewrite Hasp. fold (claveDe asp).
  destruct (carreras st !! claveDe asp) as [carrera|] eqn:Hc;
    [|by apply paso_sin_carrera].
  destruct (Z.ltb_spec (Aspirante.puntaje asp) (ICarrera.minPuntaje carrera))
    as [Hlt|Hge]; [by eapply paso_puntaje|].
  destruct (recorrerGrupos_casos carrera asp (Aspirante.grupos asp))
    as [[Hall ->]|(pre & g & post & n & Hgs & Hpre & Hn & Hpos & ->)].
  - rewrite insert_id by done.
    by apply (paso_sin_cupo st ref asp carrera).
  - simpl. by apply (paso_cupo st ref asp carrera pre g post n).
Qed.

Lemma procesar_colgante st ref :
  objetos st !! ref = None → procesar st ref = st.
Proof. intros H. unfold procesar. by rewrite H. Qed.

(** ** What the calls never change *)

Global Instance conserva_refl : Reflexive conserva.
Proof. by intros st. Qed.

Global Instance conserva_trans : Transitive conserva.
Proof.
  intros a b c (?&?&?&?) (?&?&?&?). repeat split; congruence.
Qed.

Lemma datos_insert (l : list Aspirante.t) ref a a' :
  l !! ref = Some a → datos a' = datos a →
  datos <$> <[ref := a']> l = datos <$> l.
Proof.
  intros Hl Hd. rewrite list_fmap_insert, Hd.
  apply list_insert_id. by rewrite list_lookup_fmap, Hl.
Qed.

Lemma ficha_insert (m : gmap string ICarrera.t) k c c' :
  m !! k = Some c → ficha c' = ficha c →
  ficha <$> <[k := c']> m = ficha <$> m.
Proof.
  intros Hm Hf. rewrite fmap_insert, Hf.
  apply insert_id. by rewrite lookup_fmap, Hm.
Qed.

Lemma conserva_datos st st' ref a :
  conserva st st' → objetos st !! ref = Some a →
  ∃ a', objetos st' !! ref = Some a' ∧ datos a' = datos a.
Proof.
  intros (_ & _ & Hd & _) Ha.
  assert ((datos <$> objetos st') !! ref = Some (datos a)) as Hl
    by (by rewrite Hd, list_lookup_fmap, Ha).
  rewrite list_lookup_fmap in Hl.
  destruct (objetos st' !! ref) as [a'|]; [|done].
  exists a'. split; [done|]. simpl in Hl. congruence.
Qed.

Lemma conserva_ficha st st' k c :
  conserva st st' → carreras st !! k = Some c →
  ∃ c', carreras st' !! k = Some c' ∧ ficha c' = ficha c.
Proof.
  intros (_ & _ & _ & Hf) Hc.
  assert ((ficha <$> carreras st') !! k = Some (ficha c)) as Hl
    by (by rewrite Hf, lookup_fmap, Hc).
  rewrite lookup_fmap in Hl.
  destruct (carreras st' !! k) as [c'|]; [|done].
  exists c'. split; [done|]. simpl in Hl. congruence.
Qed.

Lemma conserva_sin_carrera st st' k :
  conserva st st' → carreras st !! k = None → carreras st' !! k = None.
Proof.
  intros (_ & _ & _ & Hf) Hc.
  assert ((ficha <$> carreras st') !! k = None) as Hl
    by (by rewrite Hf, lookup_fmap, Hc).
  rewrite lookup_fmap in Hl. by destruct (carreras st' !! k).
Qed.

Lemma procesar_conserva st ref : conserva st (procesar st ref).
Proof.
  destruct (objetos st !! ref) as [asp|] eqn:Hasp;
    [|by rewrite procesar_colgante].
  destruct (procesar_paso st ref asp Hasp); repeat split; simpl; try done.
  - by apply (datos_insert _ _ asp).
  - by apply (datos_insert _ _ asp).
  - apply (datos_insert _ _ asp); [done|]. by case_decide.
  - by apply (datos_insert _ _ asp).
  - by apply (ficha_insert _ _ carrera).
Qed.

Lemma procesar_otro st ref ref' :
  ref ≠ ref' → objetos (procesar st ref) !! ref' = objetos st !! ref'.
Proof.
  intros Hne.
  destruct (objetos st !! ref) as [asp|] eqn:Hasp;
    [|by rewrite procesar_colgante].
  destruct (procesar_paso st ref asp Hasp); simpl;
    by rewrite list_lookup_insert_ne.
Qed.

Lemma procesar_entregadas st ref : entregadas (procesar st ref) = entregadas st.
Proof.
  destruct (objetos st !! ref) as [asp|] eqn:Hasp;
    [|by rewrite procesar_colgante].
  by destruct (procesar_paso st ref asp Hasp).
Qed.

(** Induction over the candidates of one batch. *)
Lemma lote_ind (P : Sistema → Prop) l st :
  (∀ st ref, P st → P (procesar st ref)) → P st → P (foldl procesar st l).
Proof. intros Hstep. revert st. induction l; simpl; eauto. Qed.

Lemma lote_conserva l st : conserva st (foldl procesar st l).
Proof.
  apply (lote_ind (conserva st)); [|done].
  intros st' ref H. etrans; [exact H | apply procesar_conserva].
Qed.

Lemma ordenados_Permutation st refs : ordenados st refs ≡ₚ refs.
Proof. apply Array_sort_Permutation. Qed.

(** After the batch, a property that the step establishes for the
    candidate it handles, and that later steps on that candidate
    re-establish, holds for every candidate of the batch. *)
Lemma lote_ultimo (Q : Sistema → Aspirante.t → Prop) l st ref :
  (∀ st' a, conserva st st' → objetos st' !! ref = Some a →
     ∃ a', objetos (procesar st' ref) !! ref = Some a' ∧ Q st' a') →
  ref ∈ l → is_Some (objetos st !! ref) →
  ∃ st' a', conserva st st' ∧
    objetos (foldl procesar st l) !! ref = Some a' ∧ Q st' a'.
Proof.
  intros Hstep. induction l as [|x l IH] using rev_ind; [by intros ?%elem_of_nil|].
  intros Hin [a Ha]. rewrite foldl_app. simpl.
  pose proof (lote_conserva l st) as Hcons.
  destruct (decide (x = ref)) as [->|Hne].
  - destruct (conserva_datos _ _ _ _ Hcons Ha) as (a1 & Ha1 & _).
    destruct (Hstep _ _ Hcons Ha1) as (a' & Ha' & HQ). eauto.
  - apply elem_of_app in Hin as [Hin|Hin%list_elem_of_singleton]; [|done].
    destruct (IH Hin) as (st' & a' & ? & Ha' & HQ); [by eexists|].
    exists st', a'. by rewrite procesar_otro.
Qed.

(** ** Manual override: frame facts *)

Lemma modificarManualmente_carreras id e st :
  carreras (modificarManualmente id e st).2 = carreras st.
Proof.
  unfold modificarManualmente.
  destruct (buscarPorId id st) as [ref|]; [|done].
  destruct (objetos st !! ref) as [asp|]; [|done].
  by destruct e, (carreras st !! toUpperCase (Aspirante.carreraDeseada asp)).
Qed.

Lemma modificarManualmente_conserva id e st :
  conserva st (modificarManualmente id e st).2.
Proof.
  unfold modificarManualmente.
  destruct (buscarPorId id st) as [ref|]; [|done].
  destruct (objetos st !! ref) as [asp|] eqn:Hasp; [|done].
  destruct e, (carreras st !! toUpperCase (Aspirante.carreraDeseada asp));
    repeat split; simpl; try done; by apply (datos_insert _ _ asp).
Qed.

Lemma ejecutar_conserva st ll : conserva st (ejecutar st ll).
Proof.
  destruct ll as [refs|id e]; simpl.
  - apply lote_conserva.
  - apply modificarManualmente_conserva.
Qed.

Lemma ejecutarTodas_ind (P : Sistema → Prop) lls st :
  (∀ st ll, P st → P (ejecutar st ll)) → P st → P (ejecutarTodas st lls).
Proof. intros Hstep. revert st. induction lls; simpl; eauto. Qed.

(** ** Remaining capacity is never negative *)

Lemma round_aux_sin_signo m e l :
  sin_signo (binary_round_aux Number.prec Number.emax false m e l).
Proof.
  unfold binary_round_aux.
  destruct (shr_fexp _ _ m e l) as [mrs' e'].
  destruct (shr_fexp _ _ _ e' loc_Exact) as [mrs'' e''].
  destruct (shr_m mrs''); simpl; try done.
  by destruct (_ <=? _).
Qed.

Lemma of_Z_sin_signo n : 0 ≤ n → sin_signo (Number.of_Z n).
Proof.
  destruct n as [|p|p]; [done| |lia]. intros _. simpl.
  unfold binary_round.
  destruct (shl_align _ _ _) as [mz ez]. apply round_aux_sin_signo.
Qed.

Lemma mul_sin_signo x y :
  sin_signo x → sin_signo y → sin_signo (Number.mul x y).
Proof.
  unfold Number.mul.
  destruct x as [sx|sx| |sx mx ex], y as [sy|sy| |sy my ey];
    simpl; try done; try (by intros -> ->).
  intros -> ->. apply round_aux_sin_signo.
Qed.

Lemma floor_sin_signo x : sin_signo x → 0 ≤ Number.floor x.
Proof.
  destruct x as [s|s| |s m e]; simpl; try done. intros ->.
  destruct (0 <=? e).
  - by apply Z.shiftl_nonneg.
  - by apply Z.shiftr_nonneg.
Qed.

Lemma cupo_no_negativo cupos lit :
  0 ≤ cupos → sin_signo lit →
  0 ≤ Number.floor (Number.mul (Number.of_Z cupos) lit).
Proof.
  intros Hc Hl. apply floor_sin_signo, mul_sin_signo; [|done].
  by apply of_Z_sin_signo.
Qed.

(** X2. Configuring a programme with a non-negative seat count keeps every
    counter of the catalog non-negative. *)
Lemma configurarCarrera_no_negativas nombre cupos min cat :
  0 ≤ cupos →
  map_Forall (λ _ c, map_Forall (λ _ n, 0 ≤ n) (ICarrera.segmentos c)) cat →
  map_Forall (λ _ c, map_Forall (λ _ n, 0 ≤ n) (ICarrera.segmentos c))
    (configurarCarrera nombre cupos min cat).
Proof.
  intros Hc Hcat. unfold configurarCarrera.
  apply map_Forall_insert_2; [|done]. simpl.
  repeat apply map_Forall_insert_2; try by apply cupo_no_negativo.
  apply map_Forall_empty.
Qed.

Lemma procesar_no_negativas st ref :
  capacidades_no_negativas st → capacidades_no_negativas (procesar st ref).
Proof.
  intros Hst.
  destruct (objetos st !! ref) as [asp|] eqn:Hasp;
    [|by rewrite procesar_colgante].
  destruct (procesar_paso st ref asp Hasp)
    as [ | | |carrera pre g post n Hc Hmin Hgs Hpre Hn Hpos]; try done.
  unfold capacidades_no_negativas. simpl.
  apply map_Forall_insert_2; [|done]. simpl.
  apply map_Forall_insert_2; [lia|]. by apply (Hst _ _ Hc).
Qed.

Lemma ejecutar_no_negativas st ll :
  capacidades_no_negativas st → capacidades_no_negativas (ejecutar st ll).
Proof.
  destruct ll as [refs|id e]; simpl.
  - apply lote_ind. apply procesar_no_negativas.
  - unfold capacidades_no_negativas.
    by rewrite modificarManualmente_carreras.
Qed.

(** C1. Starting from non-negative capacities (as [configurarCarrera]
    produces them, see [configurarCarrera_no_negativas]), after any
    sequence of [ejecutarAsignacionAutomatica] and [modificarManualmente]
    calls every entry of every programme's [segmentos] map is [>= 0]. *)
Theorem capacidad_nunca_negativa (st : Sistema) (llamadas : list Llamada) :
  capacidades_no_negativas st →
  capacidades_no_negativas (ejecutarTodas st llamadas).
Proof.
  intros H. apply (ejecutarTodas_ind capacidades_no_negativas); [|done].
  apply ejecutar_no_negativas.
Qed.

Lemma capacidad_nunca_negativa_testigo :
  capacidades_no_negativas sistemaInicial ∧
  capacidades_no_negativas
    (ejecutarTodas sistemaInicial
       [Automatica (aspirantes sistemaInicial); Manual 6 ACEPTADO;
        Manual 1 RECHAZADO; Automatica [5; 0; 5; 3]%nat]).
Proof.
  assert (capacidades_no_negativas sistemaInicial) as H
    by (apply (bool_decide_unpack _); vm_compute; exact I).
  split; [exact H|]. apply (capacidad_nunca_negativa _ _ H).
Defined.

(** ** Manual override *)

Lemma find_None_iff {A} (f : A → bool) (l : list A) :
  List.find f l = None ↔ ∀ x, x ∈ l → f x = false.
Proof.
  induction l as [|y l IH]; simpl.
  - split; [|done]. by intros _ x ?%elem_of_nil.
  - destruct (f y) eqn:Hy.
    + split; [done|]. intros H. specialize (H y (list_elem_of_here _ _)). congruence.
    + rewrite IH. split.
      * intros H x [->|Hx]%elem_of_cons; eauto.
      * intros H x Hx. apply H. by right.
Qed.

Lemma buscarPorId_None id st : buscarPorId id st = None ↔ ¬ registrado id st.
Proof.
  unfold buscarPorId. rewrite find_None_iff. split.
  - intros H (ref & a & Hin & Ha & Hid). specialize (H ref Hin).
    rewrite Ha in H. simpl in H. apply Z.eqb_neq in H. done.
  - intros H ref Hin. destruct (objetos st !! ref) as [a|] eqn:Ha; [|done].
    simpl. apply Z.eqb_neq. intros Hid. apply H. by exists ref, a.
Qed.

Lemma buscarPorId_Some id st ref :
  buscarPorId id st = Some ref →
  ref ∈ aspirantes st ∧ ∃ a, objetos st !! ref = Some a ∧ Aspirante.id a = id.
Proof.
  unfold buscarPorId. intros [Hin Hf]%List.find_some. split.
  - by apply list_elem_of_In.
  - destruct (objetos st !! ref) as [a|]; [|done].
    exists a. split; [done|]. by apply Z.eqb_eq.
Qed.

(** C6. [modificarManualmente] with [ACEPTADO] leaves every counter of
    every programme's [segmentos] map unchanged (the whole catalog is the
    same), and when the candidate is found and the desired programme
    exists it sets status [ACEPTADO], the programme name and the label
    ["ADMIN_FORZADO"]. *)
Theorem aceptacion_manual_no_consume (id : Z) (st : Sistema) :
  carreras (modificarManualmente id ACEPTADO st).2 = carreras st ∧
  ∀ ref asp carrera,
    buscarPorId id st = Some ref →
    objetos st !! ref = Some asp →
    carreras st !! claveDe asp = Some carrera →
    (modificarManualmente id ACEPTADO st).1 = "Estado: ACEPTADO." ∧
    ∃ asp', objetos (modificarManualmente id ACEPTADO st).2 !! ref = Some asp' ∧
      Aspirante.estadoCupo asp' = ACEPTADO ∧
      Aspirante.carreraAsignada asp' = Some (ICarrera.nombre carrera) ∧
      Aspirante.grupoAsignadoFinal asp' = Some "ADMIN_FORZADO".
Proof.
  split; [apply modificarManualmente_carreras|].
  intros ref asp carrera Href Hasp Hc. unfold modificarManualmente.
  unfold claveDe in Hc. rewrite Href, Hasp, Hc. simpl. split; [done|].
  exists (Aspirante.aceptar (ICarrera.nombre carrera) "ADMIN_FORZADO" asp).
  split; [|done].
  apply list_lookup_insert_eq. by eapply lookup_lt_Some.
Qed.

Lemma aceptacion_manual_no_consume_testigo :
  carreras (modificarManualmente 6 ACEPTADO sistemaTrasAsignacion).2
    = carreras sistemaTrasAsignacion ∧
  ∃ asp', objetos (modificarManualmente 6 ACEPTADO sistemaTrasAsignacion).2 !! 5%nat
            = Some asp' ∧
    Aspirante.estadoCupo asp' = ACEPTADO ∧
    Aspirante.carreraAsignada asp' = Some "MEDICINA" ∧
    Aspirante.grupoAsignadoFinal asp' = Some "ADMIN_FORZADO".
Proof.
  destruct (aceptacion_manual_no_consume 6 sistemaTrasAsignacion) as [Hcat Hasp].
  split; [exact Hcat|].
  refine (proj2 (Hasp 5%nat
            (Aspirante.mk 6 "Carla Vera" 88 "MEDICINA" [3; 7] None None RECHAZADO)
            (ICarrera.mk "MEDICINA" 90 (<[7 := 0]> (<[3 := 0]> ∅))) _ _ _));
    vm_compute; reflexivity.
Defined.

(** C7. For an id that no registered candidate carries,
    [modificarManualmente] returns the message ["ID no encontrado."] and
    the state is the one before the call: no candidate field, no capacity
    counter and no delivered notification changes. *)
Theorem id_desconocido_sin_efecto (id : Z) (e : EstadoCupo) (st : Sistema) :
  ¬ registrado id st →
  (modificarManualmente id e st).1 = "ID no encontrado." ∧
  (modificarManualmente id e st).2 = st ∧
  objetos (modificarManualmente id e st).2 = objetos st ∧
  carreras (modificarManualmente id e st).2 = carreras st ∧
  entregadas (modificarManualmente id e st).2 = entregadas st.
Proof.
  intros H%buscarPorId_None. unfold modificarManualmente. by rewrite H.
Qed.

Lemma id_desconocido_sin_efecto_testigo :
  (modificarManualmente 21 ACEPTADO sistemaTrasAsignacion).1 = "ID no encontrado." ∧
  (modificarManualmente 21 ACEPTADO sistemaTrasAsignacion).2 = sistemaTrasAsignacion.
Proof.
  destruct (id_desconocido_sin_efecto 21 ACEPTADO sistemaTrasAsignacion)
    as (Hmsg & Hst & _); [|by split].
  apply buscarPorId_None. vm_compute. reflexivity.
Defined.

(** Any status other than a successful forced acceptance is written by
    [asp.estadoCupo = nuevoEstado] alone: the two assignment fields keep
    whatever they held. *)
Lemma modificarManualmente_conserva_asignacion id e st ref asp :
  buscarPorId id st = Some ref →
  objetos st !! ref = Some asp →
  e ≠ ACEPTADO ∨ carreras st !! claveDe asp = None →
  (modificarManualmente id e st).1 = "Estado actualizado." ∧
  objetos (modificarManualmente id e st).2 !! ref =
    Some (Aspirante.mk (Aspirante.id asp) (Aspirante.nombre asp)
            (Aspirante.puntaje asp) (Aspirante.carreraDeseada asp)
            (Aspirante.grupos asp) (Aspirante.carreraAsignada asp)
            (Aspirante.grupoAsignadoFinal asp) e).
Proof.
  intros Href Hasp Hcaso. unfold modificarManualmente. rewrite Href, Hasp.
  fold (claveDe asp).
  assert (ref < length (objetos st))%nat by by eapply lookup_lt_Some.
  destruct Hcaso as [He|Hc].
  - destruct e; [|done|]; destruct (carreras st !! claveDe asp); simpl;
      (split; [done|]); by apply list_lookup_insert_eq.
  - rewrite Hc. destruct e; simpl; (split; [done|]);
      by apply list_lookup_insert_eq.
Qed.

(** C5. At the state [main] reaches after the batch, candidate 1 is
    accepted in MEDICINA under segment 3; [modificarManualmente(1,
    "RECHAZADO", repo)] sets the status to [RECHAZADO] and leaves
    [carreraAsignada] and [grupoAsignadoFinal] as they were, not [null]. *)
Theorem rechazo_manual_deja_asignacion :
  objetos sistemaTrasAsignacion !! 0%nat =
    Some (Aspirante.mk 1 "Ana Garcia" 98 "MEDICINA" [3; 7]
            (Some "MEDICINA") (Some "Segmento-3") ACEPTADO) ∧
  (modificarManualmente 1 RECHAZADO sistemaTrasAsignacion).1 = "Estado actualizado." ∧
  objetos (modificarManualmente 1 RECHAZADO sistemaTrasAsignacion).2 !! 0%nat =
    Some (Aspirante.mk 1 "Ana Garcia" 98 "MEDICINA" [3; 7]
            (Some "MEDICINA") (Some "Segmento-3") RECHAZADO).
Proof. vm_compute. done. Qed.

(** C2. Two reachable states in which the assigned programme and the
    status disagree.  After the batch of [main], rejecting candidate 7 by
    hand leaves status [RECHAZADO] with [carreraAsignada = "MEDICINA"];
    and forcing [ACEPTADO] on a registered candidate whose desired
    programme is not in the catalog leaves status [ACEPTADO] with
    [carreraAsignada = null]. *)
Theorem estado_y_asignacion_discrepan :
  (∃ a,
     objetos (ejecutarTodas sistemaInicial
                [Automatica (aspirantes sistemaInicial); Manual 7 RECHAZADO])
       !! 6%nat = Some a ∧
     Aspirante.estadoCupo a = RECHAZADO ∧
     Aspirante.carreraAsignada a = Some "MEDICINA") ∧
  (∃ a,
     objetos (ejecutarTodas
                (registrar (nuevoAspirante 21 "Rosa Mero" 95 "DERECHO" [] false)
                   sistemaInicial)
                [Manual 21 ACEPTADO])
       !! 20%nat = Some a ∧
     Aspirante.estadoCupo a = ACEPTADO ∧
     Aspirante.carreraAsignada a = None).
Proof. split; eexists; vm_compute; done. Qed.

(** ** The ranking of the batch *)

Lemma StronglySorted_impl {A} (R R' : A → A → Prop) l :
  (∀ x y, R x y → R' x y) → StronglySorted R l → StronglySorted R' l.
Proof.
  intros HR. induction 1 as [|x l Hl IH Hx]; constructor; [done|].
  eapply Forall_impl; [exact Hx|]. eauto.
Qed.

(** The order of processing as a list, read through [puntajeDe]:
    non-increasing score, a permutation of the input array, and for every
    score the candidates carrying it in their input order. *)
Theorem ranking_estable_descendente (st : Sistema) (refs : list nat) :
  ejecutarAsignacionAutomatica refs st = foldl procesar st (ordenados st refs) ∧
  StronglySorted (λ a b, puntajeDe st b ≤ puntajeDe st a) (ordenados st refs) ∧
  ordenados st refs ≡ₚ refs ∧
  ∀ p : Z,
    filter (λ ref, puntajeDe st ref = p) (ordenados st refs) =
    filter (λ ref, puntajeDe st ref = p) refs.
Proof.
  split; [done|]. split; [|split].
  - eapply StronglySorted_impl; [|apply Array_sort_sorted]; simpl; intros; lia.
  - apply ordenados_Permutation.
  - intros p. apply (Array_sort_filter _ (λ ref, puntajeDe st ref = p)).
    intros x y -> ->. lia.
Qed.

(** Two candidates with the same score compete for the single general
    seat of a programme configured with two seats: the one registered
    first takes it, whichever of the two that is. *)
Example empate_gana_el_primero :
  let cat := configurarCarrera "ARTE" 2 None ∅ in
  let a := nuevoAspirante 1 "Ana" 95 "ARTE" [] false in
  let b := nuevoAspirante 2 "Luis" 95 "ARTE" [] false in
  let st1 := registrar b (registrar a (Build_Sistema [] [] cat [] [])) in
  let st2 := registrar a (registrar b (Build_Sistema [] [] cat [] [])) in
  (Aspirante.estadoCupo <$> objetos (ejecutarAsignacionAutomatica (aspirantes st1) st1))
    = [ACEPTADO; RECHAZADO] ∧
  (Aspirante.id <$> objetos st2) = [2; 1] ∧
  (Aspirante.estadoCupo <$> objetos (ejecutarAsignacionAutomatica (aspirantes st2) st2))
    = [ACEPTADO; RECHAZADO].
Proof. vm_compute. done. Qed.

(** ** The group list built by the constructor *)

Lemma ultimo_de_ordenada (l : list Z) x :
  StronglySorted Z.le l → x ∈ l → Forall (λ g, g ≤ x) l → last l = Some x.
Proof.
  induction 1 as [|y l Hl IH Hy]; [by intros ?%elem_of_nil|].
  intros Hx Hmax. destruct l as [|z l]; simpl.
  - apply list_elem_of_singleton in Hx. by subst.
  - apply Forall_cons in Hmax as [Hyx Hmax]. apply IH; [|done].
    apply elem_of_cons in Hx as [->|Hx]; [|done].
    apply Forall_cons in Hy as [Hyz _]. apply Forall_cons in Hmax as [Hzy _].
    assert (z = y) as -> by lia. apply list_elem_of_here.
Qed.

Lemma grupos_nuevoAspirante id nombre puntaje carrera grupos tieneTitulo :
  Aspirante.grupos (nuevoAspirante id nombre puntaje carrera grupos tieneTitulo)
  = Array_sort (λ a b, a - b) (if tieneTitulo then [7] else grupos ++ [7]).
Proof. done. Qed.

(** The loop takes the seat of the first listed group that has one; on a
    list in ascending order that is the least such group code. *)
Lemma recorrerGrupos_menor carrera asp gs :
  StronglySorted Z.le gs →
  (Forall (λ g, puedeAcceder carrera g = false) gs ∧
   recorrerGrupos carrera asp gs = (carrera, asp)) ∨
  (∃ g n,
     g ∈ gs ∧ ICarrera.segmentos carrera !! g = Some n ∧ 0 < n ∧
     (∀ g', g' ∈ gs → puedeAcceder carrera g' = true → g ≤ g') ∧
     recorrerGrupos carrera asp gs =
       (ICarrera.set_segmento g (n - 1) carrera,
        Aspirante.aceptar (ICarrera.nombre carrera) (etiqueta g) asp)).
Proof.
  intros Hsort.
  destruct (recorrerGrupos_casos carrera asp gs)
    as [?|(pre & g & post & n & -> & Hpre & Hn & Hpos & Heq)]; [by left|].
  right. exists g, n. repeat split; try done.
  - apply elem_of_app. right. apply list_elem_of_here.
  - intros g' Hin Hg'.
    apply StronglySorted_app in Hsort as (_ & _ & Hpost).
    apply elem_of_app in Hin as [Hin|Hin].
    + rewrite Forall_forall in Hpre. specialize (Hpre _ Hin). congruence.
    + apply elem_of_cons in Hin as [->|Hin]; [lia|].
      apply StronglySorted_cons in Hpost as [Hall _].
      rewrite Forall_forall in Hall. by apply Hall.
Qed.

Lemma ordenada_hasta_ultimo (l : list Z) x :
  StronglySorted Z.le l → last l = Some x → Forall (λ g, g ≤ x) l.
Proof.
  induction 1 as [|y l Hl IH Hy]; [constructor|].
  destruct l as [|z l]; simpl.
  - intros [= ->]. by repeat constructor.
  - intros Hlast. specialize (IH Hlast). constructor; [|done].
    apply Forall_cons in Hy as [Hyz _]. apply Forall_cons in IH as [Hzx _]. lia.
Qed.

(** C8. The group list of a constructed candidate is the given codes
    followed by 7 (only 7 when [tieneTitulo]) in ascending order: it is
    sorted, always contains 7 and is exactly [[7]] under [tieneTitulo]; its
    codes are unique exactly when [tieneTitulo] holds or the given codes are
    unique and do not include 7; it ends in 7 exactly when [tieneTitulo]
    holds or no given code exceeds 7; and the loop of the batch takes the
    seat of the least listed code that has one. *)
Theorem grupos_del_constructor (id : Z) (nombre : string) (puntaje : Z)
    (carreraDeseada : string) (grupos : list Z) (tieneTitulo : bool) :
  let gs := Aspirante.grupos
              (nuevoAspirante id nombre puntaje carreraDeseada grupos tieneTitulo) in
  StronglySorted Z.le gs ∧
  gs ≡ₚ (if tieneTitulo then [7] else grupos ++ [7]) ∧
  7 ∈ gs ∧
  (tieneTitulo = true → gs = [7]) ∧
  (NoDup gs ↔ tieneTitulo = true ∨ (NoDup grupos ∧ 7 ∉ grupos)) ∧
  (last gs = Some 7 ↔ tieneTitulo = true ∨ Forall (λ g, g ≤ 7) grupos) ∧
  ∀ carrera asp,
    (Forall (λ g, puedeAcceder carrera g = false) gs ∧
     recorrerGrupos carrera asp gs = (carrera, asp)) ∨
    (∃ g n,
       g ∈ gs ∧ ICarrera.segmentos carrera !! g = Some n ∧ 0 < n ∧
       (∀ g', g' ∈ gs → puedeAcceder carrera g' = true → g ≤ g') ∧
       recorrerGrupos carrera asp gs =
         (ICarrera.set_segmento g (n - 1) carrera,
          Aspirante.aceptar (ICarrera.nombre carrera) (etiqueta g) asp)).
Proof.
  intros gs. subst gs. rewrite grupos_nuevoAspirante.
  set (l := if tieneTitulo then [7] else grupos ++ [7]).
  assert (StronglySorted Z.le (Array_sort (λ a b, a - b) l)) as Hsort.
  { eapply StronglySorted_impl; [|apply Array_sort_sorted]; simpl; intros; lia. }
  pose proof (Array_sort_Permutation (λ a b, a - b) l) as Hperm.
  assert (7 ∈ Array_sort (λ a b : Z, a - b) l) as H7.
  { rewrite Hperm. subst l. destruct tieneTitulo; set_solver. }
  split_and!; try done.
  - by intros ->.
  - subst l. destruct tieneTitulo.
    + split; [by left|]. intros _. apply NoDup_singleton.
    + rewrite Hperm, NoDup_app. split.
      * intros (Hnd & Hdis & _). right. split; [done|].
        intros Hin. apply (Hdis 7 Hin). apply list_elem_of_here.
      * intros [?|[Hnd H7']]; [done|].
        split_and!; [done| |apply NoDup_singleton].
        by intros x Hx ->%list_elem_of_singleton.
  - split.
    + intros Hlast. destruct tieneTitulo; [by left|]. right.
      apply (ordenada_hasta_ultimo _ _ Hsort) in Hlast.
      rewrite Hperm in Hlast. subst l.
      by apply Forall_app in Hlast as [? _].
    + intros Hcaso. apply ultimo_de_ordenada; [done..|].
      rewrite Hperm. subst l. destruct Hcaso as [->|Hall].
      * by repeat constructor.
      * destruct tieneTitulo; [by repeat constructor|].
        apply Forall_app. split; [done|]. by repeat constructor.
  - intros carrera asp. by apply recorrerGrupos_menor.
Qed.

Lemma grupos_del_constructor_testigo :
  NoDup (Aspirante.grupos (nuevoAspirante 1 "Ana Garcia" 98 "MEDICINA" [3] false)) ∧
  last (Aspirante.grupos (nuevoAspirante 1 "Ana Garcia" 98 "MEDICINA" [3] false))
    = Some 7 ∧
  Aspirante.grupos (nuevoAspirante 7 "Juan Castro" 99 "MEDICINA" [] true) = [7].
Proof.
  destruct (grupos_del_constructor 1 "Ana Garcia" 98 "MEDICINA" [3] false)
    as (_ & _ & _ & _ & Hnd & Hlast & _).
  destruct (grupos_del_constructor 7 "Juan Castro" 99 "MEDICINA" [] true)
    as (_ & _ & _ & Htit & _).
  split; [|split].
  - apply Hnd. right. split.
    + apply NoDup_singleton.
    + intros H%list_elem_of_singleton. discriminate H.
  - apply Hlast. right. repeat constructor. lia.
  - apply Htit. reflexivity.
Defined.

(** Two constructions against the list being a set that ends in 7: a given
    code 7 is kept next to the appended one, and a given code above 7 is
    sorted behind it. *)
Lemma grupos_ni_unicos_ni_7_al_final :
  Aspirante.grupos (nuevoAspirante 4 "Jose Zambrano" 70 "INGENIERIA" [7] false)
    = [7; 7] ∧
  ¬ NoDup (Aspirante.grupos
             (nuevoAspirante 4 "Jose Zambrano" 70 "INGENIERIA" [7] false)) ∧
  Aspirante.grupos (nuevoAspirante 4 "Jose Zambrano" 70 "INGENIERIA" [9] false)
    = [7; 9] ∧
  last (Aspirante.grupos
          (nuevoAspirante 4 "Jose Zambrano" 70 "INGENIERIA" [9] false)) ≠ Some 7.
Proof.
  split_and!; [reflexivity| |reflexivity|discriminate].
  intros [Hnot _]%NoDup_cons. apply Hnot. apply list_elem_of_here.
Qed.

(** ** Rejection by the guard of the batch *)

Lemma conserva_sym st st' : conserva st st' → conserva st' st.
Proof. intros (?&?&?&?). by repeat split. Qed.

Lemma datos_clave a a' :
  datos a' = datos a →
  claveDe a' = claveDe a ∧ Aspirante.puntaje a' = Aspirante.puntaje a ∧
  Aspirante.grupos a' = Aspirante.grupos a.
Proof. unfold datos, claveDe. intros [= _ _ -> -> ->]. done. Qed.

Lemma alcanza_minimo_conserva st st' a a' :
  conserva st st' → datos a' = datos a →
  alcanza_minimo st a → alcanza_minimo st' a'.
Proof.
  intros Hcons (Hk & Hp & _)%datos_clave (c & Hc & Hmin).
  destruct (conserva_ficha _ _ _ _ Hcons Hc) as (c' & Hc' & [= _ Hm]).
  exists c'. rewrite Hk, Hp, Hm. done.
Qed.

Lemma guardia_excluyente st asp :
  sin_carrera_o_puntaje st asp → alcanza_minimo st asp → False.
Proof.
  unfold sin_carrera_o_puntaje. intros Hg (c & Hc & Hmin).
  rewrite Hc in Hg. lia.
Qed.

Lemma procesar_guardia st ref asp :
  objetos st !! ref = Some asp →
  ∃ asp', objetos (procesar st ref) !! ref = Some asp' ∧
    (sin_carrera_o_puntaje st asp →
       Aspirante.estadoCupo asp' = RECHAZADO ∧
       carreras (procesar st ref) = carreras st) ∧
    (Aspirante.estadoCupo asp' = ACEPTADO → alcanza_minimo st asp).
Proof.
  intros Hasp.
  assert (ref < length (objetos st))%nat as Hlt by by eapply lookup_lt_Some.
  destruct (procesar_paso st ref asp Hasp)
    as [Hc|c Hc Hmin|c Hc Hmin Hall|c pre g post n Hc Hmin Hgs Hpre Hn Hpos];
    simpl; rewrite list_lookup_insert_eq by done; eexists; (split; [done|]).
  - by split.
  - by split.
  - split.
    + intros Hg. exfalso. apply (guardia_excluyente st asp Hg). by exists c.
    + intros _. by exists c.
  - split.
    + intros Hg. exfalso. apply (guardia_excluyente st asp Hg). by exists c.
    + intros _. by exists c.
Qed.

(** C3. The step of the batch rejects a candidate whose desired programme
    is missing from the catalog or whose score is below the programme's
    minimum, and leaves the catalog (every capacity counter) as it was;
    after the batch every such candidate of the input is [RECHAZADO], and
    every candidate of the input that is [ACEPTADO] has an existing
    desired programme whose minimum score its score reaches. *)
Theorem rechazo_por_carrera_o_puntaje :
  (∀ st ref asp,
     objetos st !! ref = Some asp → sin_carrera_o_puntaje st asp →
     carreras (procesar st ref) = carreras st ∧
     ∃ asp', objetos (procesar st ref) !! ref = Some asp' ∧
       Aspirante.estadoCupo asp' = RECHAZADO) ∧
  (∀ st refs ref asp,
     ref ∈ refs → objetos st !! ref = Some asp →
     ∃ asp', objetos (ejecutarAsignacionAutomatica refs st) !! ref = Some asp' ∧
       (sin_carrera_o_puntaje st asp → Aspirante.estadoCupo asp' = RECHAZADO) ∧
       (Aspirante.estadoCupo asp' = ACEPTADO → alcanza_minimo st asp)).
Proof.
  split.
  - intros st ref asp Hasp Hg.
    destruct (procesar_guardia st ref asp Hasp) as (asp' & Hasp' & Hrej & _).
    destruct (Hrej Hg). eauto.
  - intros st refs ref asp Hin Hasp. unfold ejecutarAsignacionAutomatica.
    rewrite <- (ordenados_Permutation st) in Hin.
    destruct (lote_ultimo
                (λ st' a', datos a' = datos asp ∧
                   (sin_carrera_o_puntaje st' a' → Aspirante.estadoCupo a' = RECHAZADO) ∧
                   (Aspirante.estadoCupo a' = ACEPTADO → alcanza_minimo st' a'))
                (ordenados st refs) st ref)
      as (st' & asp' & Hcons & Hasp' & Hd & Hrej & Hacc); [|done|by eexists|].
    + intros st' a Hcons Ha.
      destruct (conserva_datos _ _ _ _ Hcons Hasp) as (a0 & Ha0 & Hd0).
      assert (a0 = a) as -> by congruence.
      destruct (procesar_guardia st' ref a Ha) as (a' & Ha' & Hrej & Hacc).
      exists a'. split; [done|].
      destruct (conserva_datos _ _ _ _ (procesar_conserva st' ref) Ha)
        as (a'' & Ha'' & Hd'').
      assert (a'' = a') as -> by congruence.
      assert (datos a' = datos asp) as Hd by congruence.
      split_and!; [done| |].
      * intros Hg. apply Hrej.
        unfold sin_carrera_o_puntaje in *.
        destruct (datos_clave _ _ Hd'') as (Hk & Hp & _).
        by rewrite Hk, Hp in Hg.
      * intros He. eapply alcanza_minimo_conserva; [reflexivity| |by apply Hacc].
        done.
    + exists asp'. split; [done|]. split.
      * intros Hg. apply Hrej.
        unfold sin_carrera_o_puntaje in *.
        destruct (datos_clave _ _ Hd) as (-> & -> & _).
        destruct (carreras st !! claveDe asp) as [c|] eqn:Hc.
        -- destruct (conserva_ficha _ _ _ _ Hcons Hc) as (c' & -> & [= _ ->]).
           done.
        -- by rewrite (conserva_sin_carrera _ _ _ Hcons Hc).
      * intros He.
        eapply alcanza_minimo_conserva;
          [by apply conserva_sym| |by apply Hacc]. done.
Qed.

Lemma rechazo_por_carrera_o_puntaje_testigo :
  sin_carrera_o_puntaje sistemaInicial
    (nuevoAspirante 6 "Carla Vera" 88 "MEDICINA" [3] false) ∧
  ∃ asp', objetos sistemaTrasAsignacion !! 5%nat = Some asp' ∧
    Aspirante.estadoCupo asp' = RECHAZADO.
Proof.
  assert (sin_carrera_o_puntaje sistemaInicial
            (nuevoAspirante 6 "Carla Vera" 88 "MEDICINA" [3] false)) as Hg
    by (vm_compute; reflexivity).
  split; [exact Hg|].
  destruct rechazo_por_carrera_o_puntaje as [_ Hlote].
  destruct (Hlote sistemaInicial (aspirantes sistemaInicial) 5%nat
              (nuevoAspirante 6 "Carla Vera" 88 "MEDICINA" [3] false))
    as (asp' & Hasp' & Hrej & _).
  - apply (bool_decide_unpack _). vm_compute. exact I.
  - vm_compute. reflexivity.
  - exists asp'. split; [exact Hasp'|]. apply Hrej, Hg.
Defined.

(** ** Only segments 3 and 7 hold seats *)

Lemma configurado_solo_3_y_7 cat :
  configurado cat →
  map_Forall (λ _ c, dom (ICarrera.segmentos c) ⊆ ({[3; 7]} : gset Z)) cat.
Proof.
  induction 1 as [|nombre cupos min cat _ IH]; [apply map_Forall_empty|].
  unfold configurarCarrera. apply map_Forall_insert_2; [|done]. simpl.
  rewrite !dom_insert_L. set_solver.
Qed.

Lemma procesar_solo_3_y_7 st ref : solo_3_y_7 st → solo_3_y_7 (procesar st ref).
Proof.
  intros Hst.
  destruct (objetos st !! ref) as [asp|] eqn:Hasp;
    [|by rewrite procesar_colgante].
  destruct (procesar_paso st ref asp Hasp)
    as [ | | |carrera pre g post n Hc Hmin Hgs Hpre Hn Hpos]; try done.
  unfold solo_3_y_7. simpl.
  apply map_Forall_insert_2; [|done]. simpl.
  specialize (Hst _ _ Hc). simpl in Hst.
  rewrite dom_insert_L.
  apply union_subseteq. split; [|done].
  apply singleton_subseteq_l, Hst. by apply elem_of_dom.
Qed.

Lemma ejecutar_solo_3_y_7 st ll : solo_3_y_7 st → solo_3_y_7 (ejecutar st ll).
Proof.
  destruct ll as [refs|id e]; simpl.
  - apply lote_ind. apply procesar_solo_3_y_7.
  - unfold solo_3_y_7. by rewrite modificarManualmente_carreras.
Qed.

Lemma solo_3_y_7_otro st k carrera g :
  solo_3_y_7 st → carreras st !! k = Some carrera → g ≠ 3 → g ≠ 7 →
  ICarrera.segmentos carrera !! g = None ∧ puedeAcceder carrera g = false.
Proof.
  intros Hst Hc H3 H7. specialize (Hst _ _ Hc). simpl in Hst.
  assert (ICarrera.segmentos carrera !! g = None) as Hg.
  { apply not_elem_of_dom. intros Hin. apply Hst in Hin.
    apply elem_of_union in Hin as [?%elem_of_singleton|?%elem_of_singleton]; done. }
  split; [done|]. unfold puedeAcceder. by rewrite Hg.
Qed.

Global Instance aceptado_por_3_o_7_refl : Reflexive aceptado_por_3_o_7.
Proof. intros a. split; [done|]. intros ?. by left. Qed.

Global Instance aceptado_por_3_o_7_trans : Transitive aceptado_por_3_o_7.
Proof.
  intros a b c [Hd1 H1] [Hd2 H2]. split; [congruence|].
  intros Hc. destruct (datos_clave _ _ Hd1) as (_ & _ & Hg).
  destruct (H2 Hc) as [(Hb & Hca & Hl)|Hseg].
  - destruct (H1 Hb) as [(Ha & Hca' & Hl')|Hseg].
    + left. split_and!; congruence.
    + right. rewrite Hl. done.
  - right. by rewrite <- Hg.
Qed.

Lemma procesar_aceptado_por_3_o_7 st ref a :
  solo_3_y_7 st → objetos st !! ref = Some a →
  ∃ a', objetos (procesar st ref) !! ref = Some a' ∧ aceptado_por_3_o_7 a a'.
Proof.
  intros Hst Ha.
  assert (ref < length (objetos st))%nat as Hlt by by eapply lookup_lt_Some.
  destruct (procesar_paso st ref a Ha)
    as [Hc|c Hc Hmin|c Hc Hmin Hall|c pre g post n Hc Hmin Hgs Hpre Hn Hpos];
    simpl; rewrite list_lookup_insert_eq by done; eexists; (split; [done|]).
  - by split.
  - by split.
  - case_decide; [by split|reflexivity].
  - split; [done|]. intros _. right.
    assert (g ∈ Aspirante.grupos a) as Hin.
    { rewrite Hgs. apply elem_of_app. right. apply list_elem_of_here. }
    specialize (Hst _ _ Hc). simpl in Hst.
    assert (g ∈ dom (ICarrera.segmentos c)) as Hdom by by apply elem_of_dom.
    assert (g = 3 ∨ g = 7) as [->| ->] by set_solver; [by left|by right].
Qed.

(** Composition of the steps of one batch, for a relation between the
    object before and after that every step respects. *)
Lemma lote_rel (Inv : Sistema → Prop) (R : relation Aspirante.t)
    `{!Reflexive R, !Transitive R} :
  (∀ st ref, Inv st → Inv (procesar st ref)) →
  (∀ st ref a, Inv st → objetos st !! ref = Some a →
     ∃ a', objetos (procesar st ref) !! ref = Some a' ∧ R a a') →
  ∀ l st ref a, Inv st → objetos st !! ref = Some a →
    ∃ a', objetos (foldl procesar st l) !! ref = Some a' ∧ R a a'.
Proof.
  intros Hinv Hstep. induction l as [|x l IH]; intros st ref a Hst Ha; simpl.
  - by exists a.
  - destruct (decide (x = ref)) as [->|Hne].
    + destruct (Hstep st ref a Hst Ha) as (a1 & Ha1 & HR1).
      destruct (IH (procesar st ref) ref a1 (Hinv _ _ Hst) Ha1) as (a' & Ha' & HR).
      exists a'. split; [done|]. by etrans.
    + apply IH; [by apply Hinv|]. by rewrite procesar_otro.
Qed.

(** C10. From a catalog built by [configurarCarrera], after any sequence
    of calls: no programme has an entry for a group code other than 3 and
    7, so [puedeAcceder] is false for it; and a candidate that a further
    batch leaves [ACEPTADO] either was already accepted and kept its
    assignment, or carries the label ["Segmento-3"] or ["Segmento-7"] of
    one of its own groups. *)
Theorem solo_segmentos_3_y_7 (st0 : Sistema) (llamadas : list Llamada) :
  configurado (carreras st0) →
  (∀ k carrera g,
     carreras (ejecutarTodas st0 llamadas) !! k = Some carrera →
     g ≠ 3 → g ≠ 7 →
     ICarrera.segmentos carrera !! g = None ∧ puedeAcceder carrera g = false) ∧
  (∀ refs ref asp,
     objetos (ejecutarTodas st0 llamadas) !! ref = Some asp →
     ∃ asp',
       objetos (ejecutarAsignacionAutomatica refs (ejecutarTodas st0 llamadas))
         !! ref = Some asp' ∧
       (Aspirante.estadoCupo asp' = ACEPTADO →
        (Aspirante.estadoCupo asp = ACEPTADO ∧
         Aspirante.carreraAsignada asp' = Aspirante.carreraAsignada asp ∧
         Aspirante.grupoAsignadoFinal asp' = Aspirante.grupoAsignadoFinal asp) ∨
        (Aspirante.grupoAsignadoFinal asp' = Some "Segmento-3" ∧
         3 ∈ Aspirante.grupos asp) ∨
        (Aspirante.grupoAsignadoFinal asp' = Some "Segmento-7" ∧
         7 ∈ Aspirante.grupos asp))).
Proof.
  intros Hconf.
  assert (solo_3_y_7 (ejecutarTodas st0 llamadas)) as Hst.
  { apply (ejecutarTodas_ind solo_3_y_7); [apply ejecutar_solo_3_y_7|].
    by apply configurado_solo_3_y_7. }
  split.
  - intros k carrera g. by apply solo_3_y_7_otro.
  - intros refs ref asp Hasp. unfold ejecutarAsignacionAutomatica.
    destruct (lote_rel solo_3_y_7 aceptado_por_3_o_7
                procesar_solo_3_y_7 procesar_aceptado_por_3_o_7
                (ordenados (ejecutarTodas st0 llamadas) refs) _ ref asp Hst Hasp)
      as (asp' & Hasp' & _ & HR).
    by exists asp'.
Qed.

Lemma configurado_servicioNuevo : configurado (carreras sistemaInicial).
Proof. repeat constructor. Defined.

Lemma solo_segmentos_3_y_7_testigo :
  configurado (carreras sistemaInicial) ∧
  ∀ k carrera,
    carreras (ejecutarTodas sistemaInicial [Automatica (aspirantes sistemaInicial)])
      !! k = Some carrera →
    puedeAcceder carrera 1 = false ∧ puedeAcceder carrera 2 = false.
Proof.
  split; [exact configurado_servicioNuevo|]. intros k carrera Hc.
  destruct (solo_segmentos_3_y_7 sistemaInicial
              [Automatica (aspirantes sistemaInicial)] configurado_servicioNuevo)
    as [Hotros _].
  split.
  - apply (Hotros k carrera 1 Hc); discriminate.
  - apply (Hotros k carrera 2 Hc); discriminate.
Defined.

(** ** The capacity split of [configurarCarrera] *)

Lemma segmentosConfigurados_eq nombre cupos min cat :
  segmentosConfigurados nombre cupos min cat =
  Some (<[7 := Number.floor (Number.mul (Number.of_Z cupos) Number.lit_070)]>
          (<[3 := Number.floor (Number.mul (Number.of_Z cupos) Number.lit_030)]> ∅)).
Proof.
  unfold segmentosConfigurados, configurarCarrera.
  by rewrite lookup_insert_eq.
Qed.

Lemma configurarCarrera_claves nombre cupos min cat :
  ∃ c, configurarCarrera nombre cupos min cat !! toUpperCase nombre = Some c ∧
    ICarrera.nombre c = nombre ∧ ICarrera.minPuntaje c = default 70 min ∧
    dom (ICarrera.segmentos c) = {[3; 7]}.
Proof.
  unfold configurarCarrera. rewrite lookup_insert_eq.
  eexists. split; [done|]. simpl. split_and!; [done..|].
  rewrite !dom_insert_L, dom_empty_L. apply set_eq. intros x.
  rewrite !elem_of_union, !elem_of_singleton. set_unfold. tauto.
Qed.

Lemma por_rango (P : Z → bool) (n : nat) :
  forallb P (Z.of_nat <$> seq 0 n) = true →
  ∀ z, 0 ≤ z < Z.of_nat n → P z = true.
Proof.
  intros Hall z Hz. rewrite forallb_forall in Hall. apply Hall.
  apply list_elem_of_In, list_elem_of_fmap. exists (Z.to_nat z).
  split; [lia|]. apply list_elem_of_In, in_seq. lia.
Qed.

Lemma reparto_coincide_hasta_89 cupos :
  0 ≤ cupos < 90 → reparto_coincide cupos = true.
Proof. apply (por_rango reparto_coincide 90). vm_compute. reflexivity. Qed.

(** C9. [configurarCarrera] stores one programme under the upper-cased
    name with exactly the keys 3 and 7, holding the floors of the binary64
    products [cupos * 0.30] and [cupos * 0.70].  For every seat count from
    0 to 89 these are [floor(0.30 * cupos)] and [floor(0.70 * cupos)] in
    exact arithmetic; 10 seats give 3 and 7, 15 seats give 4 and 10. *)
Theorem reparto_de_cupos :
  (∀ nombre cupos min cat,
     ∃ c, configurarCarrera nombre cupos min cat !! toUpperCase nombre = Some c ∧
       ICarrera.nombre c = nombre ∧ ICarrera.minPuntaje c = default 70 min ∧
       dom (ICarrera.segmentos c) = {[3; 7]} ∧
       ICarrera.segmentos c !! 3 =
         Some (Number.floor (Number.mul (Number.of_Z cupos) Number.lit_030)) ∧
       ICarrera.segmentos c !! 7 =
         Some (Number.floor (Number.mul (Number.of_Z cupos) Number.lit_070))) ∧
  (∀ nombre cupos min cat,
     0 ≤ cupos < 90 →
     segmentosConfigurados nombre cupos min cat = Some (reparto_segun_spec cupos)) ∧
  (∀ nombre min cat,
     segmentosConfigurados nombre 10 min cat = Some (<[7 := 7]> (<[3 := 3]> ∅)) ∧
     segmentosConfigurados nombre 15 min cat = Some (<[7 := 10]> (<[3 := 4]> ∅))).
Proof.
  split_and!.
  - intros nombre cupos min cat.
    destruct (configurarCarrera_claves nombre cupos min cat)
      as (c & Hc & Hn & Hm & Hdom).
    exists c. split_and!; try done.
    all: unfold configurarCarrera in Hc; rewrite lookup_insert_eq in Hc;
      injection Hc as <-; simpl.
    + by rewrite lookup_insert_ne, lookup_insert_eq.
    + by rewrite lookup_insert_eq.
  - intros nombre cupos min cat Hc. rewrite segmentosConfigurados_eq.
    apply reparto_coincide_hasta_89 in Hc.
    apply andb_prop in Hc as [H3%Z.eqb_eq H7%Z.eqb_eq].
    unfold reparto_segun_spec. by rewrite H3, H7.
  - intros nombre min cat. by rewrite !segmentosConfigurados_eq.
Qed.

Lemma reparto_de_cupos_testigo :
  segmentosConfigurados "INGENIERIA" 15 (Some 80) ∅ = Some (reparto_segun_spec 15).
Proof.
  destruct reparto_de_cupos as (_ & Hrango & _).
  apply Hrango. split; [discriminate|reflexivity].
Defined.

(** With 90 seats the binary64 product [90 * 0.70] is just below 63: the
    general entry is 62, where [floor(0.70 * 90)] is 63. *)
Lemma reparto_con_90_cupos :
  segmentosConfigurados "DERECHO" 90 None ∅ = Some (<[7 := 62]> (<[3 := 27]> ∅)) ∧
  reparto_segun_spec 90 = <[7 := 63]> (<[3 := 27]> ∅) ∧
  segmentosConfigurados "DERECHO" 90 None ∅ ≠ Some (reparto_segun_spec 90).
Proof.
  split_and!.
  - by rewrite segmentosConfigurados_eq.
  - done.
  - rewrite segmentosConfigurados_eq. intros H.
    apply (f_equal (λ o : option (gmap Z Z), o ≫= λ m, m !! 7)) in H.
    vm_compute in H. discriminate H.
Qed.

(** ** Status and assigned programme *)

(** X3. [procesarEstado] of the earlier service writes any status other
    than [ACEPTADO] together with [carreraAsignada = null], and leaves the
    catalog as it was. *)
Lemma procesarEstado_limpia aspirante nuevoEstado nombreCarrera carreras :
  nuevoEstado ≠ ACEPTADO →
  let r := Anterior.procesarEstado aspirante nuevoEstado nombreCarrera carreras in
  Anterior.Aspirante.estadoCupo r.1.1 = nuevoEstado ∧
  Anterior.Aspirante.carreraAsignada r.1.1 = None ∧
  r.1.2 = carreras.
Proof.
  intros He. unfold Anterior.procesarEstado.
  destruct nuevoEstado; [|done|]; by destruct nombreCarrera as [[|??]|].
Qed.

Lemma procesar_coherente st ref :
  todos_coherentes st → todos_coherentes (procesar st ref).
Proof.
  intros Hst ref' a' Ha'.
  pose proof (procesar_conserva st ref) as Hcons.
  destruct (decide (ref = ref')) as [<-|Hne].
  - destruct (objetos st !! ref) as [a|] eqn:Ha;
      [|rewrite procesar_colgante in Ha' by done; congruence].
    destruct (Hst _ _ Ha) as [Hiff Hmin].
    assert (ref < length (objetos st))%nat as Hlt by by eapply lookup_lt_Some.
    assert (Aspirante.estadoCupo a ≠ ACEPTADO → Aspirante.carreraAsignada a = None)
      as Hnone.
    { intros Hne. destruct (Aspirante.carreraAsignada a) eqn:Hca; [|done].
      exfalso. apply Hne, Hiff. by eexists. }
    destruct (procesar_paso st ref a Ha)
      as [Hc|c Hc Hp|c Hc Hp Hall|c pre g post n Hc Hp Hgs Hpre Hn Hpos];
      simpl in Ha'; rewrite list_lookup_insert_eq in Ha' by done;
      injection Ha' as <-.
    + assert (Aspirante.estadoCupo a ≠ ACEPTADO) as Hne.
      { intros (c & Hc' & _)%Hmin. congruence. }
      split; simpl; [|done]. rewrite (Hnone Hne).
      split; [done|]. by intros [??].
    + assert (Aspirante.estadoCupo a ≠ ACEPTADO) as Hne.
      { intros (c' & Hc' & ?)%Hmin. assert (c' = c) as -> by congruence. lia. }
      split; simpl; [|done]. rewrite (Hnone Hne).
      split; [done|]. by intros [??].
    + case_decide as Hpend.
      * split; simpl; [|done]. rewrite Hnone by congruence.
        split; [done|]. by intros [??].
      * split; [done|]. intros _. by exists c.
    + split; simpl; [by split; [eexists|]|]. intros _.
      eapply (alcanza_minimo_conserva st); [done|reflexivity|]. by exists c.
  - rewrite procesar_otro in Ha' by done.
    destruct (Hst _ _ Ha') as [Hiff Hmin]. split; [done|].
    intros He. eapply alcanza_minimo_conserva; [done|reflexivity|by apply Hmin].
Qed.

(** X1. Batches alone keep status and assigned programme in agreement:
    if every candidate is coherent before [ejecutarAsignacionAutomatica], every
    candidate is coherent after it. *)
Lemma lote_coherente refs st :
  todos_coherentes st → todos_coherentes (ejecutarAsignacionAutomatica refs st).
Proof. apply lote_ind. apply procesar_coherente. Qed.

Lemma lote_coherente_testigo :
  todos_coherentes sistemaInicial ∧ todos_coherentes sistemaTrasAsignacion.
Proof.
  assert (todos_coherentes sistemaInicial) as H.
  { intros ref a Ha.
    assert (Aspirante.estadoCupo a = PENDIENTE ∧ Aspirante.carreraAsignada a = None)
      as [He Hc].
    { apply list_elem_of_lookup_2 in Ha.
      change (objetos sistemaInicial) with bdFicticia in Ha.
      unfold bdFicticia in Ha.
      repeat (apply elem_of_cons in Ha as [->|Ha]; [by split|]).
      by apply elem_of_nil in Ha. }
    split.
    - rewrite He, Hc. split; [done|]. by intros [??].
    - by rewrite He. }
  split; [exact H|]. exact (lote_coherente (aspirantes sistemaInicial) _ H).
Defined.

Lemma configurarCarrera_no_negativas_testigo :
  map_Forall (λ _ c, map_Forall (λ _ n, 0 ≤ n) (ICarrera.segmentos c))
    (configurarCarrera "MEDICINA" 10 (Some 90) ∅).
Proof.
  apply configurarCarrera_no_negativas; [discriminate|apply map_Forall_empty].
Defined.

Lemma procesarEstado_limpia_testigo :
  Anterior.Aspirante.carreraAsignada
    (Anterior.procesarEstado
       (Anterior.Aspirante.mk "Jover" "Moreira" "1301" 95 "MEDICINA"
          (Some "MEDICINA") ACEPTADO)
       RECHAZADO None ∅).1.1 = None.
Proof.
  refine (proj1 (proj2 (procesarEstado_limpia _ RECHAZADO None ∅ _))).
  discriminate.
Defined.

(** ** Seats are only consumed *)

Lemma procesar_cupoDe st ref k g :
  cupoDe (procesar st ref) k g ≤ cupoDe st k g.
Proof.
  destruct (objetos st !! ref) as [asp|] eqn:Hasp;
    [|by rewrite procesar_colgante].
  destruct (procesar_paso st ref asp Hasp)
    as [ | | |carrera pre g0 post n Hc Hmin Hgs Hpre Hn Hpos]; try done.
  unfold cupoDe. simpl.
  destruct (decide (claveDe asp = k)) as [<-|Hk].
  - rewrite lookup_insert_eq, Hc. simpl.
    destruct (decide (g0 = g)) as [<-|Hg].
    + rewrite lookup_insert_eq, Hn. simpl. lia.
    + by rewrite lookup_insert_ne.
  - by rewrite lookup_insert_ne.
Qed.

Lemma ejecutar_cupoDe st ll k g : cupoDe (ejecutar st ll) k g ≤ cupoDe st k g.
Proof.
  destruct ll as [refs|id e]; simpl.
  - apply (lote_ind (λ st', cupoDe st' k g ≤ cupoDe st k g)); [|done].
    intros st' ref' H. etrans; [apply procesar_cupoDe|done].
  - unfold cupoDe. by rewrite modificarManualmente_carreras.
Qed.

(** X4. No sequence of calls ever raises a capacity counter: seats are
    consumed by the batch and never returned, neither by a later batch nor
    by a manual change of status. *)
Theorem cupos_no_aumentan (st : Sistema) (llamadas : list Llamada)
    (k : string) (g : Z) :
  cupoDe (ejecutarTodas st llamadas) k g ≤ cupoDe st k g.
Proof.
  apply (ejecutarTodas_ind (λ st', cupoDe st' k g ≤ cupoDe st k g)); [|done].
  intros st' ll H. etrans; [apply ejecutar_cupoDe|done].
Qed.

(** The lookup key is the upper-cased desired programme, and configured
    programmes are stored under upper-cased names. *)
Example clave_en_mayusculas :
  claveDe (nuevoAspirante 1 "Ana Garcia" 98 "Medicina" [3] false) = "MEDICINA" ∧
  is_Some (configurarCarrera "medicina" 10 (Some 90) ∅ !! "MEDICINA").
Proof. split; [reflexivity|]. by eexists. Qed.

(** ** What a batch leaves alone *)

Lemma lote_fuera l st ref :
  ref ∉ l → objetos (foldl procesar st l) !! ref = objetos st !! ref.
Proof.
  revert st. induction l as [|x l IH]; intros st Hnot; simpl; [done|].
  apply not_elem_of_cons in Hnot as [Hne Hnot].
  rewrite IH by done. by apply procesar_otro.
Qed.

Lemma lote_entregadas l st : entregadas (foldl procesar st l) = entregadas st.
Proof.
  apply (lote_ind (λ st', entregadas st' = entregadas st)); [|done].
  intros st' ref H. by rewrite procesar_entregadas.
Qed.

Lemma lote_cupoDe l st k g : cupoDe (foldl procesar st l) k g ≤ cupoDe st k g.
Proof.
  apply (lote_ind (λ st', cupoDe st' k g ≤ cupoDe st k g)); [|done].
  intros st' ref' H. etrans; [apply procesar_cupoDe|done].
Qed.

(** X5. [ejecutarAsignacionAutomatica] publishes nothing and registers
    nothing: the delivered notifications, the repository's array and the
    observer list are the ones before the call, the object store keeps its
    size, and an object that is not in the array handed to the batch is
    left exactly as it was. *)
Theorem lote_no_notifica (refs : list nat) (st : Sistema) :
  entregadas (ejecutarAsignacionAutomatica refs st) = entregadas st ∧
  aspirantes (ejecutarAsignacionAutomatica refs st) = aspirantes st ∧
  observadores (ejecutarAsignacionAutomatica refs st) = observadores st ∧
  length (objetos (ejecutarAsignacionAutomatica refs st)) = length (objetos st) ∧
  ∀ ref, ref ∉ refs →
    objetos (ejecutarAsignacionAutomatica refs st) !! ref = objetos st !! ref.
Proof.
  unfold ejecutarAsignacionAutomatica.
  destruct (lote_conserva (ordenados st refs) st) as (Hrepo & Hobs & Hdatos & _).
  split_and!; [apply lote_entregadas|done|done| |].
  - by rewrite <- (length_fmap datos), Hdatos, length_fmap.
  - intros ref Hnot. apply lote_fuera. by rewrite ordenados_Permutation.
Qed.

Lemma procesar_decide st ref a :
  objetos st !! ref = Some a →
  ∃ a', objetos (procesar st ref) !! ref = Some a' ∧
    Aspirante.estadoCupo a' ≠ PENDIENTE.
Proof.
  intros Ha.
  assert (ref < length (objetos st))%nat as Hlt by by eapply lookup_lt_Some.
  destruct (procesar_paso st ref a Ha); simpl;
    rewrite list_lookup_insert_eq by done; eexists; (split; [done|]); try done.
  by case_decide.
Qed.

(** X6. After a batch no candidate of the array handed to it is still
    [PENDIENTE]: each one is [ACEPTADO] or [RECHAZADO]. *)
Theorem lote_decide_a_todos (refs : list nat) (st : Sistema) (ref : nat)
    (a : Aspirante.t) :
  ref ∈ refs → objetos st !! ref = Some a →
  ∃ a', objetos (ejecutarAsignacionAutomatica refs st) !! ref = Some a' ∧
    (Aspirante.estadoCupo a' = ACEPTADO ∨ Aspirante.estadoCupo a' = RECHAZADO).
Proof.
  intros Hin Ha. unfold ejecutarAsignacionAutomatica.
  rewrite <- (ordenados_Permutation st) in Hin.
  destruct (lote_ultimo (λ _ a', Aspirante.estadoCupo a' ≠ PENDIENTE)
              (ordenados st refs) st ref) as (_ & a' & _ & Ha' & Hne);
    [|done|by eexists|].
  - intros st' a0 _ Ha0. by apply (procesar_decide st' ref a0).
  - exists a'. split; [done|].
    destruct (Aspirante.estadoCupo a') eqn:He; [congruence|by left|by right].
Qed.

Lemma lote_decide_a_todos_testigo :
  ∃ a', objetos sistemaTrasAsignacion !! 3%nat = Some a' ∧
    (Aspirante.estadoCupo a' = ACEPTADO ∨ Aspirante.estadoCupo a' = RECHAZADO).
Proof.
  apply (lote_decide_a_todos (aspirantes sistemaInicial) sistemaInicial 3%nat
           (nuevoAspirante 4 "Jose Zambrano" 70 "INGENIERIA" [] false)).
  - apply (bool_decide_unpack _). vm_compute. exact I.
  - vm_compute. reflexivity.
Defined.

(** ** Seat accounting of a batch *)

Lemma etiqueta_inj g g' : etiqueta g = etiqueta g' → g = g'.
Proof. unfold etiqueta. simpl. intros [= H]. by apply (inj pretty). Qed.

Lemma sentadoEn_lookup st k g ref a :
  objetos st !! ref = Some a →
  sentadoEn st k g ref ↔
  Aspirante.estadoCupo a = ACEPTADO ∧ claveDe a = k ∧
  Aspirante.grupoAsignadoFinal a = Some (etiqueta g).
Proof.
  intros Ha. unfold sentadoEn. split.
  - intros (a' & Ha' & H). by assert (a' = a) as -> by congruence.
  - intros H. by exists a.
Qed.

Lemma sentadoEn_ext st st' k g ref :
  objetos st !! ref = objetos st' !! ref →
  sentadoEn st k g ref ↔ sentadoEn st' k g ref.
Proof. unfold sentadoEn. by intros ->. Qed.

Lemma procesar_cuenta st ref k g :
  (∀ a, objetos st !! ref = Some a → Aspirante.estadoCupo a ≠ ACEPTADO) →
  cupoDe st k g =
  cupoDe (procesar st ref) k g +
  (if decide (sentadoEn (procesar st ref) k g ref) then 1 else 0).
Proof.
  intros Hno.
  destruct (objetos st !! ref) as [asp|] eqn:Hasp.
  - specialize (Hno asp eq_refl).
    assert (ref < length (objetos st))%nat as Hlt by by eapply lookup_lt_Some.
    destruct (procesar_paso st ref asp Hasp)
      as [Hc|c Hc Hmin|c Hc Hmin Hall|c pre g0 post n Hc Hmin Hgs Hpre Hn Hpos].
    + rewrite decide_False; [by rewrite Z.add_0_r|].
      rewrite sentadoEn_lookup by (simpl; by apply list_lookup_insert_eq).
      by intros [? _].
    + rewrite decide_False; [by rewrite Z.add_0_r|].
      rewrite sentadoEn_lookup by (simpl; by apply list_lookup_insert_eq).
      by intros [? _].
    + destruct (decide (Aspirante.estadoCupo asp = PENDIENTE)) as [Hp|Hp];
        (rewrite decide_False; [by rewrite Z.add_0_r|]);
        rewrite sentadoEn_lookup by (simpl; by apply list_lookup_insert_eq);
        by intros [? _].
    + destruct (decide (claveDe asp = k ∧ g0 = g)) as [[<- <-]|Hotro].
      * rewrite decide_True.
        -- unfold cupoDe. simpl. rewrite lookup_insert_eq, Hc. simpl.
           rewrite lookup_insert_eq, Hn. simpl. lia.
        -- rewrite sentadoEn_lookup by (simpl; by apply list_lookup_insert_eq).
           done.
      * rewrite decide_False.
        -- unfold cupoDe. simpl.
           destruct (decide (claveDe asp = k)) as [<-|Hk].
           ++ rewrite lookup_insert_eq, Hc. simpl.
              rewrite lookup_insert_ne; [lia|]. intros <-. by apply Hotro.
           ++ rewrite lookup_insert_ne by done. lia.
        -- rewrite sentadoEn_lookup by (simpl; by apply list_lookup_insert_eq).
           simpl. intros (_ & Hk & Hg). apply (inj Some) in Hg.
           apply etiqueta_inj in Hg. by apply Hotro.
  - rewrite procesar_colgante by done.
    rewrite decide_False; [lia|]. intros (a & Ha & _). congruence.
Qed.

Lemma lote_cuenta l st k g :
  NoDup l →
  (∀ ref a, ref ∈ l → objetos st !! ref = Some a →
     Aspirante.estadoCupo a ≠ ACEPTADO) →
  cupoDe st k g =
  cupoDe (foldl procesar st l) k g + sentados (foldl procesar st l) k g l.
Proof.
  revert st. induction l as [|x l IH]; intros st Hnd Hno; simpl.
  - unfold sentados. simpl. lia.
  - apply NoDup_cons in Hnd as [Hx Hnd].
    rewrite (procesar_cuenta st x k g) by (intros a; apply Hno; left).
    rewrite (IH (procesar st x)); [|done|].
    + unfold sentados. rewrite filter_cons.
      assert (sentadoEn (foldl procesar (procesar st x) l) k g x ↔
              sentadoEn (procesar st x) k g x) as Hiff
        by (apply sentadoEn_ext; by apply lote_fuera).
      destruct (decide (sentadoEn (procesar st x) k g x)) as [Hs|Hs].
      * rewrite decide_True by by apply Hiff. simpl. lia.
      * rewrite decide_False by (by rewrite Hiff). lia.
    + intros ref a Hin Ha. rewrite procesar_otro in Ha.
      * eapply Hno; [by right|done].
      * intros ->. done.
Qed.

(** X7. Seat conservation of a batch over distinct candidates none of
    whom is already accepted: for every programme key and group code, the
    seats before the batch are the seats left after it plus the number of
    candidates of the batch accepted in that programme under that group's
    label. *)
Theorem conservacion_de_cupos (refs : list nat) (st : Sistema) (k : string) (g : Z) :
  NoDup refs →
  (∀ ref a, ref ∈ refs → objetos st !! ref = Some a →
     Aspirante.estadoCupo a ≠ ACEPTADO) →
  cupoDe st k g =
  cupoDe (ejecutarAsignacionAutomatica refs st) k g +
  sentados (ejecutarAsignacionAutomatica refs st) k g refs.
Proof.
  intros Hnd Hno. unfold ejecutarAsignacionAutomatica.
  pose proof (ordenados_Permutation st refs) as Hperm.
  rewrite (lote_cuenta (ordenados st refs) st k g).
  - unfold sentados. do 2 f_equal.
    apply Permutation_length. by apply filter_Permutation.
  - by rewrite Hperm.
  - intros ref a Hin. apply Hno. by rewrite <- Hperm.
Qed.

Lemma conservacion_de_cupos_testigo :
  cupoDe sistemaInicial "MEDICINA" 7 =
  cupoDe (ejecutarAsignacionAutomatica (aspirantes sistemaInicial) sistemaInicial)
    "MEDICINA" 7 +
  sentados (ejecutarAsignacionAutomatica (aspirantes sistemaInicial) sistemaInicial)
    "MEDICINA" 7 (aspirantes sistemaInicial).
Proof.
  apply conservacion_de_cupos.
  - apply (bool_decide_unpack _). vm_compute. exact I.
  - intros ref a Hin Ha.
    assert (a ∈ bdFicticia) as Hb by exact (list_elem_of_lookup_2 _ _ _ Ha).
    unfold bdFicticia in Hb.
    repeat (apply elem_of_cons in Hb as [->|Hb]; [discriminate|]).
    by apply elem_of_nil in Hb.
Defined.

(** ** Priority between two candidates of a batch *)

Lemma cupoDe_lookup st k g c n :
  carreras st !! k = Some c → ICarrera.segmentos c !! g = Some n →
  cupoDe st k g = n.
Proof. intros Hc Hn. unfold cupoDe. rewrite Hc. simpl. by rewrite Hn. Qed.

Lemma cupoDe_puedeAcceder st k g c :
  carreras st !! k = Some c → cupoDe st k g = default 0 (ICarrera.segmentos c !! g).
Proof. intros Hc. unfold cupoDe. by rewrite Hc. Qed.

Lemma procesar_acepta st ref b :
  objetos st !! ref = Some b → Aspirante.estadoCupo b ≠ ACEPTADO →
  estadoDe (procesar st ref) ref = Some ACEPTADO →
  ∃ c g, carreras st !! claveDe b = Some c ∧
    ICarrera.minPuntaje c ≤ Aspirante.puntaje b ∧
    g ∈ Aspirante.grupos b ∧ 0 < cupoDe st (claveDe b) g.
Proof.
  intros Hb Hno. unfold estadoDe.
  assert (ref < length (objetos st))%nat as Hlt by by eapply lookup_lt_Some.
  destruct (procesar_paso st ref b Hb)
    as [Hc|c Hc Hmin|c Hc Hmin Hall|c pre g post n Hc Hmin Hgs Hpre Hn Hpos];
    simpl; rewrite list_lookup_insert_eq by done; simpl; try done.
  - case_decide; [done|]. intros [= He]. done.
  - intros _. exists c, g. split_and!; try done.
    + rewrite Hgs. apply elem_of_app. right. apply list_elem_of_here.
    + by rewrite (cupoDe_lookup st _ g c n).
Qed.

Lemma procesar_con_cupo st ref a c g :
  objetos st !! ref = Some a →
  carreras st !! claveDe a = Some c →
  ICarrera.minPuntaje c ≤ Aspirante.puntaje a →
  g ∈ Aspirante.grupos a → 0 < cupoDe st (claveDe a) g →
  estadoDe (procesar st ref) ref = Some ACEPTADO.
Proof.
  intros Ha Hc Hmin Hg Hpos. unfold estadoDe.
  assert (ref < length (objetos st))%nat as Hlt by by eapply lookup_lt_Some.
  rewrite (cupoDe_puedeAcceder st _ g c Hc) in Hpos.
  destruct (procesar_paso st ref a Ha)
    as [Hc'|c' Hc' Hmin'|c' Hc' Hmin' Hall|c' pre g' post n Hc' Hmin' Hgs Hpre Hn Hpos'];
    simpl; rewrite list_lookup_insert_eq by done; simpl; try done.
  - congruence.
  - assert (c' = c) as -> by congruence. lia.
  - assert (c' = c) as -> by congruence.
    rewrite Forall_forall in Hall. specialize (Hall g Hg).
    apply puedeAcceder_false in Hall. lia.
Qed.

(** Whoever is processed first, with a score at least as high, the same
    programme and every group of the other, is accepted if the other is. *)
Lemma lote_sin_adelantar l st refA refB a b :
  NoDup l → precede l refA refB →
  objetos st !! refA = Some a → objetos st !! refB = Some b →
  Aspirante.puntaje b ≤ Aspirante.puntaje a →
  claveDe a = claveDe b →
  Aspirante.grupos b ⊆ Aspirante.grupos a →
  Aspirante.estadoCupo b ≠ ACEPTADO →
  estadoDe (foldl procesar st l) refB = Some ACEPTADO →
  estadoDe (foldl procesar st l) refA = Some ACEPTADO.
Proof.
  intros Hnd (l1 & l2 & l3 & ->) Ha Hb Hp Hk Hg Hno.
  apply NoDup_app in Hnd as (_ & HA1 & [HA23 Hnd]%NoDup_cons).
  apply NoDup_app in Hnd as (_ & HB2 & [HB3 _]%NoDup_cons).
  assert (refA ∉ l1) as HA1' by (intros H; apply (HA1 _ H), list_elem_of_here).
  assert (refB ∉ l1) as HB1.
  { intros H. apply (HA1 _ H). right. apply elem_of_app. right.
    apply list_elem_of_here. }
  assert (refB ∉ l2) as HB2' by (intros H; apply (HB2 _ H), list_elem_of_here).
  assert (refA ≠ refB) as Hne.
  { intros ->. apply HA23, elem_of_app. right. apply list_elem_of_here. }
  rewrite foldl_app. simpl. rewrite foldl_app. simpl.
  set (s1 := foldl procesar st l1).
  set (s2 := foldl procesar (procesar s1 refA) l2).
  assert (refB ≠ refA) as Hne' by done.
  assert (objetos (foldl procesar (procesar s2 refB) l3) !! refB
          = objetos (procesar s2 refB) !! refB) as EB by by apply lote_fuera.
  assert (objetos (foldl procesar (procesar s2 refB) l3) !! refA
          = objetos (procesar s1 refA) !! refA) as EA.
  { rewrite lote_fuera
      by (intros H; apply HA23, elem_of_app; right; by right).
    rewrite (procesar_otro s2 refB refA) by done.
    unfold s2. apply lote_fuera. intros H. apply HA23, elem_of_app. by left. }
  unfold estadoDe at 1 2. rewrite EB, EA.
  fold (estadoDe (procesar s2 refB) refB). fold (estadoDe (procesar s1 refA) refA).
  assert (objetos s1 !! refA = Some a) as Ha1
    by (unfold s1; by rewrite lote_fuera).
  assert (objetos s2 !! refB = Some b) as Hb2.
  { unfold s2. rewrite lote_fuera by done.
    rewrite procesar_otro by done. unfold s1. by rewrite lote_fuera. }
  intros HB.
  destruct (procesar_acepta s2 refB b Hb2 Hno HB) as (c & g & Hc & Hmin & Hgb & Hpos).
  assert (cupoDe s2 (claveDe b) g ≤ cupoDe s1 (claveDe b) g) as Hmono.
  { unfold s2. etrans; [apply lote_cupoDe|apply procesar_cupoDe]. }
  assert (conserva s2 s1) as Hcons.
  { apply conserva_sym. unfold s2.
    etrans; [apply procesar_conserva|apply lote_conserva]. }
  destruct (conserva_ficha _ _ _ _ Hcons Hc) as (c1 & Hc1 & [= _ Hm]).
  apply (procesar_con_cupo s1 refA a c1 g); try done.
  - by rewrite Hk.
  - lia.
  - by apply Hg.
  - rewrite Hk. lia.
Qed.

Lemma ordenados_sorted st refs :
  StronglySorted (λ x y, puntajeDe st y ≤ puntajeDe st x) (ordenados st refs).
Proof.
  eapply StronglySorted_impl; [|apply Array_sort_sorted]; simpl; intros; lia.
Qed.

Lemma ordenados_filter st refs p :
  filter (λ ref, puntajeDe st ref = p) (ordenados st refs) =
  filter (λ ref, puntajeDe st ref = p) refs.
Proof.
  apply (Array_sort_filter _ (λ ref, puntajeDe st ref = p)).
  intros x y -> ->. lia.
Qed.

Lemma precede_por_puntaje st refs x y :
  x ∈ refs → y ∈ refs → puntajeDe st y < puntajeDe st x →
  precede (ordenados st refs) x y.
Proof.
  intros Hx Hy Hlt.
  pose proof (ordenados_sorted st refs) as Hsort.
  pose proof (ordenados_Permutation st refs) as Hperm.
  rewrite <- Hperm in Hx, Hy.
  apply list_elem_of_split in Hx as (l1 & l2 & Heq). rewrite Heq in Hsort, Hy.
  apply StronglySorted_app in Hsort as (Hcross & _ & Hsort).
  apply elem_of_app in Hy as [Hy|Hy].
  - specialize (Hcross y x Hy (list_elem_of_here _ _)). simpl in Hcross. lia.
  - apply elem_of_cons in Hy as [->|Hy]; [lia|].
    apply list_elem_of_split in Hy as (l2a & l2b & ->).
    by exists l1, l2a, l2b.
Qed.

Lemma precede_lookup {A} (l : list A) x y :
  precede l x y → ∃ i j, (i < j)%nat ∧ l !! i = Some x ∧ l !! j = Some y.
Proof.
  intros (l1 & l2 & l3 & ->).
  exists (length l1), (length l1 + S (length l2))%nat. split_and!; [lia| |].
  - by rewrite list_lookup_middle.
  - rewrite lookup_app_r by lia.
    replace (length l1 + S (length l2) - length l1)%nat with (S (length l2)) by lia.
    simpl. by rewrite list_lookup_middle.
Qed.

Lemma precede_por_registro st refs x y :
  NoDup refs → precede refs x y → puntajeDe st x = puntajeDe st y →
  precede (ordenados st refs) x y.
Proof.
  intros Hnd Hpre Heq.
  pose proof (ordenados_Permutation st refs) as Hperm.
  pose proof (ordenados_filter st refs (puntajeDe st x)) as Hest.
  assert (NoDup (ordenados st refs)) as Hnd' by by rewrite Hperm.
  assert (x ≠ y) as Hne.
  { destruct (precede_lookup _ _ _ Hpre) as (i & j & Hij & Hi & Hj).
    intros ->. pose proof (NoDup_lookup _ _ _ _ Hnd Hi Hj). lia. }
  assert (x ∈ ordenados st refs ∧ y ∈ ordenados st refs) as [Hx Hy].
  { rewrite Hperm. destruct Hpre as (l1 & l2 & l3 & ->). set_solver. }
  apply list_elem_of_split in Hx as (o1 & o2 & Ho). rewrite Ho in Hy.
  apply elem_of_app in Hy as [Hy|Hy].
  - exfalso.
    apply list_elem_of_split in Hy as (o1a & o1b & ->).
    assert (precede (filter (λ ref, puntajeDe st ref = puntajeDe st x) refs) x y)
      as Hp1.
    { destruct Hpre as (l1 & l2 & l3 & ->).
      rewrite filter_app, filter_cons_True, filter_app, filter_cons_True by done.
      by eexists _, _, _. }
    assert (precede (filter (λ ref, puntajeDe st ref = puntajeDe st x) refs) y x)
      as Hp2.
    { rewrite <- Hest, Ho.
      rewrite <- (assoc_L (++)). simpl.
      rewrite filter_app, filter_cons_True, filter_app, filter_cons_True by done.
      by eexists _, _, _. }
    assert (NoDup (filter (λ ref, puntajeDe st ref = puntajeDe st x) refs)) as HndF
      by by apply NoDup_filter.
    destruct (precede_lookup _ _ _ Hp1) as (i & j & Hij & Hi & Hj).
    destruct (precede_lookup _ _ _ Hp2) as (i' & j' & Hij' & Hi' & Hj').
    pose proof (NoDup_lookup _ _ _ _ HndF Hi Hj').
    pose proof (NoDup_lookup _ _ _ _ HndF Hj Hi'). lia.
  - apply elem_of_cons in Hy as [->|Hy]; [done|].
    apply list_elem_of_split in Hy as (o2a & o2b & ->).
    rewrite Ho. by exists o1, o2a, o2b.
Qed.

(** X8. No overtaking in a batch over distinct candidates.  Let A and B
    ask for the same programme, A belong to every group of B, and A have
    the higher score, or the same score and an earlier place in the array.
    If B was not accepted before the batch and is accepted by it, then A is
    accepted after the batch too. *)
Theorem sin_adelantamiento (refs : list nat) (st : Sistema) (refA refB : nat)
    (a b : Aspirante.t) :
  NoDup refs → refA ∈ refs → refB ∈ refs →
  objetos st !! refA = Some a → objetos st !! refB = Some b →
  Aspirante.puntaje b < Aspirante.puntaje a ∨
    (Aspirante.puntaje b = Aspirante.puntaje a ∧ precede refs refA refB) →
  claveDe a = claveDe b →
  Aspirante.grupos b ⊆ Aspirante.grupos a →
  Aspirante.estadoCupo b ≠ ACEPTADO →
  estadoDe (ejecutarAsignacionAutomatica refs st) refB = Some ACEPTADO →
  estadoDe (ejecutarAsignacionAutomatica refs st) refA = Some ACEPTADO.
Proof.
  intros Hnd HA HB Ha Hb Hprio Hk Hg Hno. unfold ejecutarAsignacionAutomatica.
  assert (puntajeDe st refA = Aspirante.puntaje a) as HpA
    by (unfold puntajeDe; by rewrite Ha).
  assert (puntajeDe st refB = Aspirante.puntaje b) as HpB
    by (unfold puntajeDe; by rewrite Hb).
  apply (lote_sin_adelantar _ st refA refB a b); try done.
  - by rewrite ordenados_Permutation.
  - destruct Hprio as [Hlt|[Heq Hpre]].
    + apply precede_por_puntaje; [done..|lia].
    + apply precede_por_registro; [done..|lia].
  - destruct Hprio as [?|[? _]]; lia.
Qed.

Lemma sin_adelantamiento_testigo :
  estadoDe (ejecutarAsignacionAutomatica (aspirantes sistemaInicial) sistemaInicial)
    0%nat = Some ACEPTADO.
Proof.
  apply (sin_adelantamiento (aspirantes sistemaInicial) sistemaInicial 0%nat 14%nat
           (nuevoAspirante 1 "Ana Garcia" 98 "MEDICINA" [3] false)
           (nuevoAspirante 15 "Andres Pico" 96 "MEDICINA" [3] false)).
  - apply (bool_decide_unpack _). vm_compute. exact I.
  - apply (bool_decide_unpack _). vm_compute. exact I.
  - apply (bool_decide_unpack _). vm_compute. exact I.
  - vm_compute. reflexivity.
  - vm_compute. reflexivity.
  - left. vm_compute. reflexivity.
  - vm_compute. reflexivity.
  - intros g Hg. exact Hg.
  - discriminate.
  - vm_compute. reflexivity.
Defined.

(** X9. No seat is held back from a candidate of the batch who passes the
    guard: if such a candidate is not accepted after the batch, every one
    of its groups has no seat left in its programme. *)
Theorem sin_cupo_desperdiciado (refs : list nat) (st : Sistema) (ref : nat)
    (a : Aspirante.t) :
  ref ∈ refs → objetos st !! ref = Some a → alcanza_minimo st a →
  estadoDe (ejecutarAsignacionAutomatica refs st) ref ≠ Some ACEPTADO →
  ∀ g, g ∈ Aspirante.grupos a →
    cupoDe (ejecutarAsignacionAutomatica refs st) (claveDe a) g ≤ 0.
Proof.
  intros Hin Ha Hmin Hno g Hg. unfold ejecutarAsignacionAutomatica in *.
  rewrite <- (ordenados_Permutation st) in Hin.
  apply list_elem_of_split_r in Hin as (l1 & l2 & Heq & Hnot).
  rewrite Heq in *. rewrite foldl_app in *. simpl in *.
  set (s1 := foldl procesar st l1) in *.
  assert (conserva st s1) as Hcons by apply lote_conserva.
  destruct (conserva_datos _ _ _ _ Hcons Ha) as (a1 & Ha1 & Hd).
  destruct (datos_clave _ _ Hd) as (Hk & Hp & Hgs).
  destruct (alcanza_minimo_conserva _ _ _ _ Hcons Hd Hmin) as (c1 & Hc1 & Hmin1).
  unfold estadoDe in Hno. rewrite lote_fuera in Hno by done.
  fold (estadoDe (procesar s1 ref) ref) in Hno.
  etrans; [apply lote_cupoDe|]. etrans; [apply procesar_cupoDe|].
  destruct (Z.le_gt_cases (cupoDe s1 (claveDe a) g) 0) as [Hle|Hgt]; [done|].
  exfalso. apply Hno.
  apply (procesar_con_cupo s1 ref a1 c1 g); try done.
  - by rewrite Hgs.
  - rewrite Hk. lia.
Qed.

Lemma sin_cupo_desperdiciado_testigo :
  cupoDe
    (ejecutarAsignacionAutomatica [0; 1]%nat
       (registrar (nuevoAspirante 2 "Luis" 91 "ARTE" [] false)
          (registrar (nuevoAspirante 1 "Ana" 95 "ARTE" [] false)
             (Build_Sistema [] [] (configurarCarrera "ARTE" 2 None ∅) [] []))))
    "ARTE" 7 ≤ 0.
Proof.
  apply (sin_cupo_desperdiciado [0; 1]%nat _ 1%nat
           (nuevoAspirante 2 "Luis" 91 "ARTE" [] false)).
  - apply (bool_decide_unpack _). vm_compute. exact I.
  - vm_compute. reflexivity.
  - eexists. split; [vm_compute; reflexivity|]. vm_compute. discriminate.
  - vm_compute. discriminate.
  - apply (bool_decide_unpack _). vm_compute. exact I.
Defined.

(** ** Manual override: what it does to a registered candidate *)

Lemma find_ext_in {A} (f f' : A → bool) (l : list A) :
  (∀ x, x ∈ l → f x = f' x) → List.find f l = List.find f' l.
Proof.
  induction l as [|y l IH]; intros Hext; simpl; [done|].
  rewrite <- (Hext y) by left. destruct (f y); [done|].
  apply IH. intros x Hx. apply Hext. by right.
Qed.

Lemma buscarPorId_conserva id st st' :
  conserva st st' → buscarPorId id st' = buscarPorId id st.
Proof.
  intros (Hrepo & _ & Hd & _). unfold buscarPorId. rewrite Hrepo.
  apply find_ext_in. intros ref _.
  assert ((datos <$> objetos st') !! ref = (datos <$> objetos st) !! ref) as Hl
    by by rewrite Hd.
  rewrite !list_lookup_fmap in Hl.
  destruct (objetos st' !! ref) as [a'|], (objetos st !! ref) as [a|];
    simpl in *; try done.
  by injection Hl as -> _ _ _ _.
Qed.

(** X10. For a registered id, [modificarManualmente] always writes the
    requested status, whatever the score or the seats left; it changes no
    other object and no seat counter, and delivers one notification to each
    observer, in subscription order, with the candidate's name, the new
    status and the detail of the branch taken. *)
Theorem modificacion_manual_efecto (id : Z) (e : EstadoCupo) (st : Sistema)
    (ref : nat) (asp : Aspirante.t) :
  buscarPorId id st = Some ref → objetos st !! ref = Some asp →
  estadoDe (modificarManualmente id e st).2 ref = Some e ∧
  (∀ ref', ref' ≠ ref →
     objetos (modificarManualmente id e st).2 !! ref' = objetos st !! ref') ∧
  carreras (modificarManualmente id e st).2 = carreras st ∧
  entregadas (modificarManualmente id e st).2 =
    entregadas st ++
    map (λ o, Build_Notificacion o (Aspirante.nombre asp) e
                (if decide (e = ACEPTADO ∧ is_Some (carreras st !! claveDe asp))
                 then "Asignación manual confirmada"
                 else "Cambio manual realizado"))
      (observadores st).
Proof.
  intros Href Hasp.
  assert (ref < length (objetos st))%nat as Hlt by by eapply lookup_lt_Some.
  split_and!; [| |apply modificarManualmente_carreras|].
  - unfold modificarManualmente, estadoDe. rewrite Href, Hasp.
    destruct e, (carreras st !! toUpperCase (Aspirante.carreraDeseada asp));
      simpl; by rewrite list_lookup_insert_eq.
  - intros ref' Hne. unfold modificarManualmente. rewrite Href, Hasp.
    destruct e, (carreras st !! toUpperCase (Aspirante.carreraDeseada asp));
      simpl; by rewrite list_lookup_insert_ne.
  - unfold modificarManualmente. rewrite Href, Hasp. unfold claveDe.
    destruct (carreras st !! toUpperCase (Aspirante.carreraDeseada asp))
      as [c|] eqn:Hc.
    + by destruct e.
    + by destruct e.
Qed.

Lemma modificacion_manual_efecto_testigo :
  estadoDe (modificarManualmente 6 ACEPTADO sistemaTrasAsignacion).2 5%nat
    = Some ACEPTADO.
Proof.
  refine (proj1 (modificacion_manual_efecto 6 ACEPTADO sistemaTrasAsignacion 5%nat
                   (Aspirante.mk 6 "Carla Vera" 88 "MEDICINA" [3; 7] None None
                      RECHAZADO) _ _)); vm_compute; reflexivity.
Defined.

Lemma modificarManualmente_encontrado id e st ref asp :
  buscarPorId id st = Some ref → objetos st !! ref = Some asp →
  modificarManualmente id e st =
  match e, carreras st !! toUpperCase (Aspirante.carreraDeseada asp) with
  | ACEPTADO, Some carrera =>
      ("Estado: ACEPTADO.",
       notificar (Aspirante.aceptar (ICarrera.nombre carrera) "ADMIN_FORZADO" asp)
         "Asignación manual confirmada"
         (con_objetos
            (<[ref := Aspirante.aceptar (ICarrera.nombre carrera) "ADMIN_FORZADO" asp]>
               (objetos st)) st))
  | _, _ =>
      ("Estado actualizado.",
       notificar (Aspirante.con_estado e asp) "Cambio manual realizado"
         (con_objetos (<[ref := Aspirante.con_estado e asp]> (objetos st)) st))
  end.
Proof. intros Href Hasp. unfold modificarManualmente. by rewrite Href, Hasp. Qed.

(** X11. Repeating a manual override changes nothing further: the second
    call returns the same message and leaves the objects and the catalog
    as the first call left them (only the notifications are delivered
    again). *)
Theorem modificacion_manual_repetida (id : Z) (e : EstadoCupo) (st : Sistema) :
  (modificarManualmente id e (modificarManualmente id e st).2).1
    = (modificarManualmente id e st).1 ∧
  objetos (modificarManualmente id e (modificarManualmente id e st).2).2
    = objetos (modificarManualmente id e st).2 ∧
  carreras (modificarManualmente id e (modificarManualmente id e st).2).2
    = carreras (modificarManualmente id e st).2.
Proof.
  destruct (buscarPorId id st) as [ref|] eqn:Href;
    [|unfold modificarManualmente; rewrite Href; simpl; by rewrite Href].
  destruct (objetos st !! ref) as [asp|] eqn:Hasp;
    [|unfold modificarManualmente; rewrite Href, Hasp; simpl;
      by rewrite Href, Hasp].
  assert (ref < length (objetos st))%nat as Hlt by by eapply lookup_lt_Some.
  pose proof (buscarPorId_conserva id _ _
                (modificarManualmente_conserva id e st)) as Hbus.
  rewrite Href in Hbus.
  rewrite (modificarManualmente_encontrado id e st ref asp Href Hasp) in *.
  destruct (carreras st !! toUpperCase (Aspirante.carreraDeseada asp))
    as [c|] eqn:Hc; destruct e; simpl in *.
  all: erewrite modificarManualmente_encontrado;
    [|exact Hbus|simpl; by apply list_lookup_insert_eq].
  all: simpl; rewrite ?Hc; simpl.
  all: by rewrite list_insert_insert_eq.
Qed.

(** ** Registration and lookup by id *)

Lemma find_snoc {A} (f : A → bool) (l : list A) x :
  List.find f (l ++ [x]) =
  match List.find f l with
  | Some y => Some y
  | None => if f x then Some x else None
  end.
Proof.
  induction l as [|y l IH]; simpl; [done|]. by destruct (f y).
Qed.

Lemma ejecutar_bien_formado st ll : bien_formado st → bien_formado (ejecutar st ll).
Proof.
  unfold bien_formado. intros H.
  destruct (ejecutar_conserva st ll) as (-> & _ & Hd & _).
  by rewrite <- (length_fmap datos), Hd, length_fmap.
Qed.

(** X12. The repository accepts any candidate, also one whose id is
    already registered, and the lookup by id returns the first registered
    candidate carrying it: after [registrar(a)] an id found before is found
    at the same object, and [a] is found by its id only when no earlier
    candidate had it.  Registration keeps the repository's references
    inside the object store. *)
Theorem registrar_y_buscar (a : Aspirante.t) (id : Z) (st : Sistema) :
  bien_formado st →
  bien_formado (registrar a st) ∧
  objetos (registrar a st) !! length (objetos st) = Some a ∧
  buscarPorId id (registrar a st) =
    match buscarPorId id st with
    | Some ref => Some ref
    | None => if decide (Aspirante.id a = id) then Some (length (objetos st)) else None
    end.
Proof.
  intros Hbf. unfold bien_formado in *. split_and!.
  - simpl. rewrite length_app. simpl. apply Forall_app. split.
    + eapply Forall_impl; [exact Hbf|]. simpl. lia.
    + repeat constructor. lia.
  - simpl. by rewrite list_lookup_middle.
  - unfold buscarPorId. simpl. rewrite find_snoc.
    rewrite list_lookup_middle by done. simpl.
    rewrite (find_ext_in _
               (λ ref, from_option (λ a0, Aspirante.id a0 =? id) false
                         (objetos st !! ref))).
    + destruct (List.find _ (aspirantes st)); [done|].
      destruct (Z.eqb_spec (Aspirante.id a) id).
      * by rewrite decide_True.
      * by rewrite decide_False.
    + intros ref Hin. rewrite Forall_forall in Hbf.
      by rewrite lookup_app_l by by apply Hbf.
Qed.

Lemma registrar_y_buscar_testigo :
  buscarPorId 1
    (registrar (nuevoAspirante 1 "Otra Ana" 60 "INGENIERIA" [] false) sistemaInicial)
  = Some 0%nat.
Proof.
  refine (eq_trans
            (proj2 (proj2 (registrar_y_buscar
                             (nuevoAspirante 1 "Otra Ana" 60 "INGENIERIA" [] false)
                             1 sistemaInicial _))) _).
  - apply (bool_decide_unpack _). vm_compute. exact I.
  - vm_compute. reflexivity.
Defined.

(** ** Data no call changes *)

(** X13. No sequence of batch and manual calls adds, removes or reorders
    candidates or programmes, nor changes what the constructors fixed: the
    repository's array, the observers and the size of the object store
    stay the same; every object keeps its id, name, score, desired
    programme and groups; every programme keeps its key, name and minimum
    score; and no programme appears under a key that had none. *)
Theorem datos_inmutables (st : Sistema) (llamadas : list Llamada) :
  aspirantes (ejecutarTodas st llamadas) = aspirantes st ∧
  observadores (ejecutarTodas st llamadas) = observadores st ∧
  length (objetos (ejecutarTodas st llamadas)) = length (objetos st) ∧
  (∀ ref a, objetos st !! ref = Some a →
     ∃ a', objetos (ejecutarTodas st llamadas) !! ref = Some a' ∧
       Aspirante.id a' = Aspirante.id a ∧
       Aspirante.nombre a' = Aspirante.nombre a ∧
       Aspirante.puntaje a' = Aspirante.puntaje a ∧
       Aspirante.carreraDeseada a' = Aspirante.carreraDeseada a ∧
       Aspirante.grupos a' = Aspirante.grupos a) ∧
  (∀ k c, carreras st !! k = Some c →
     ∃ c', carreras (ejecutarTodas st llamadas) !! k = Some c' ∧
       ICarrera.nombre c' = ICarrera.nombre c ∧
       ICarrera.minPuntaje c' = ICarrera.minPuntaje c) ∧
  (∀ k, carreras st !! k = None →
     carreras (ejecutarTodas st llamadas) !! k = None).
Proof.
  assert (conserva st (ejecutarTodas st llamadas)) as Hcons.
  { apply (ejecutarTodas_ind (conserva st)); [|done].
    intros st' ll H. etrans; [exact H|apply ejecutar_conserva]. }
  pose proof Hcons as (Hrepo & Hobs & Hd & _).
  split_and!; try done.
  - by rewrite <- (length_fmap datos), Hd, length_fmap.
  - intros ref a Ha.
    destruct (conserva_datos _ _ _ _ Hcons Ha) as (a' & Ha' & [= ? ? ? ? ?]).
    by exists a'.
  - intros k c Hc.
    destruct (conserva_ficha _ _ _ _ Hcons Hc) as (c' & Hc' & [= ? ?]).
    by exists c'.
  - intros k. by apply conserva_sin_carrera.
Qed.

(** ** Listing helpers *)

Lemma append_asociativa (s1 s2 s3 : string) :
  (s1 +:+ s2) +:+ s3 = s1 +:+ (s2 +:+ s3).
Proof.
  induction s1 as [|c s1 IH]; [done|].
  change (String c ((s1 +:+ s2) +:+ s3) = String c (s1 +:+ (s2 +:+ s3))).
  by rewrite IH.
Qed.

Lemma append_prefijo_inj (p s1 s2 : string) : p +:+ s1 = p +:+ s2 → s1 = s2.
Proof.
  induction p as [|c p IH]; [done|].
  change (String c (p +:+ s1) = String c (p +:+ s2) → s1 = s2).
  intros [= H]. by apply IH.
Qed.

(** X14. [obtenerIdentificacion] identifies: two candidates get the same
    identification text exactly when they carry the same id. *)
Theorem identificacion_unica (a b : Aspirante.t) :
  obtenerIdentificacion a = obtenerIdentificacion b ↔
  Aspirante.id a = Aspirante.id b.
Proof.
  unfold obtenerIdentificacion. split.
  - intros H%append_prefijo_inj. by apply (inj pretty).
  - by intros ->.
Qed.

Lemma Array_join_snoc sep l x :
  Array_join sep (l ++ [x]) =
  match l with
  | [] => default "" x
  | _ => Array_join sep l +:+ sep +:+ default "" x
  end.
Proof.
  destruct l as [|y l]; simpl; [done|]. by rewrite foldl_app.
Qed.

(** X15. For a constructed candidate with [tieneTitulo], or whose given
    codes do not exceed 7, the text of [obtenerNombresGrupos] ends in
    ["General"]; with [tieneTitulo] it is exactly ["General"]. *)
Theorem nombres_terminan_en_General (id : Z) (nombre : string) (puntaje : Z)
    (carreraDeseada : string) (grupos : list Z) (tieneTitulo : bool) :
  tieneTitulo = true ∨ Forall (λ g, g ≤ 7) grupos →
  ∃ pre,
    obtenerNombresGrupos
      (nuevoAspirante id nombre puntaje carreraDeseada grupos tieneTitulo)
    = pre +:+ "General" ∧
    (tieneTitulo = true → pre = "").
Proof.
  intros Hcaso. unfold obtenerNombresGrupos. rewrite grupos_nuevoAspirante.
  destruct tieneTitulo.
  - exists "". by split.
  - destruct Hcaso as [?|Hall]; [done|].
    set (gs := Array_sort (λ a b, a - b) (grupos ++ [7])).
    assert (last gs = Some 7) as Hlast.
    { apply ultimo_de_ordenada.
      - eapply StronglySorted_impl; [|apply Array_sort_sorted]; simpl; intros; lia.
      - unfold gs. rewrite Array_sort_Permutation. set_solver.
      - unfold gs. rewrite Array_sort_Permutation.
        apply Forall_app. split; [done|]. by repeat constructor. }
    apply last_Some in Hlast as [ini ->].
    rewrite fmap_app. simpl. rewrite Array_join_snoc.
    destruct (nombres <$> ini) as [|y r] eqn:Hini.
    + exists "". by split.
    + exists (Array_join ", " (y :: r) +:+ ", "). split; [|done].
      symmetry. apply (append_asociativa _ ", " "General").
Qed.

Lemma nombres_terminan_en_General_testigo :
  ∃ pre,
    obtenerNombresGrupos (nuevoAspirante 1 "Ana Garcia" 98 "MEDICINA" [3] false)
    = pre +:+ "General" ∧ (false = true → pre = "").
Proof.
  apply nombres_terminan_en_General. right. repeat constructor. discriminate.
Defined.

(** ** The earlier service: seats and acceptance *)

Lemma validar_true aspirante carrera :
  Anterior.validar aspirante carrera = true ↔
  Anterior.ICarrera.minPuntaje carrera ≤ Anterior.Aspirante.puntaje aspirante ∧
  0 < Anterior.ICarrera.cupos carrera.
Proof.
  unfold Anterior.validar.
  destruct (Z.ltb_spec (Anterior.Aspirante.puntaje aspirante)
              (Anterior.ICarrera.minPuntaje carrera));
    destruct (Z.leb_spec (Anterior.ICarrera.cupos carrera) 0);
    split; try done; lia.
Qed.

(** X16. [procesarEstado] of the earlier service never drives a seat
    counter below zero: the counter is decremented only after [validar]
    has seen it positive. *)
Theorem procesarEstado_cupos_no_negativos (aspirante : Anterior.Aspirante.t)
    (nuevoEstado : EstadoCupo) (nombreCarrera : option string)
    (carreras : gmap string Anterior.ICarrera.t) :
  cupos_no_negativos carreras →
  cupos_no_negativos
    (Anterior.procesarEstado aspirante nuevoEstado nombreCarrera carreras).1.2.
Proof.
  intros Hcat. unfold Anterior.procesarEstado.
  destruct nuevoEstado; try by destruct nombreCarrera as [[|??]|].
  destruct nombreCarrera as [[|ch r]|]; try done.
  destruct (carreras !! toUpperCase (String ch r)) as [c|] eqn:Hc; [|done].
  destruct (Anterior.validar aspirante c) eqn:Hv; [|done]. simpl.
  apply validar_true in Hv as [_ Hpos].
  apply map_Forall_insert_2; [simpl; lia|done].
Qed.

Lemma procesarEstado_cupos_no_negativos_testigo :
  cupos_no_negativos
    (Anterior.procesarEstado
       (Anterior.Aspirante.mk "Jover" "Moreira" "1301" 95 "MEDICINA" None PENDIENTE)
       ACEPTADO (Some "medicina")
       {["MEDICINA" := Anterior.ICarrera.mk "MEDICINA" 1 90]}).1.2.
Proof.
  apply procesarEstado_cupos_no_negativos.
  apply map_Forall_singleton. simpl. lia.
Defined.

Lemma procesarEstado_instancia aspirante nuevoEstado nombreCarrera carreras :
  Anterior.procesarEstado aspirante nuevoEstado nombreCarrera carreras =
  procesarEstadoCon toUpperCase aspirante nuevoEstado nombreCarrera carreras.
Proof. reflexivity. Qed.

(** X17. A request to accept in the earlier service, for whatever function
    the host's [toUpperCase] is.  With a programme name: if the programme
    stored under the upper-cased name exists, the score reaches its minimum
    and a seat is left, the candidate becomes [ACEPTADO] in that programme
    and exactly that programme's counter drops by one; otherwise candidate
    and catalog stay as they were.  Without a programme name (absent or
    empty) the candidate becomes [ACEPTADO] with no programme and no seat is
    taken, whatever the score.  In every case the status published is the
    one the candidate ends with. *)
Theorem procesarEstado_aceptar (mayusculas : string → string)
    (aspirante : Anterior.Aspirante.t)
    (nombreCarrera : option string) (carreras : gmap string Anterior.ICarrera.t) :
  let r := procesarEstadoCon mayusculas aspirante ACEPTADO nombreCarrera carreras in
  r.2 = (Anterior.Aspirante.nombre aspirante, Anterior.Aspirante.estadoCupo r.1.1) ∧
  (∀ nc, nombreCarrera = Some nc → nc ≠ "" →
     (∀ c, carreras !! mayusculas nc = Some c →
        Anterior.ICarrera.minPuntaje c ≤ Anterior.Aspirante.puntaje aspirante →
        0 < Anterior.ICarrera.cupos c →
        Anterior.Aspirante.estadoCupo r.1.1 = ACEPTADO ∧
        Anterior.Aspirante.carreraAsignada r.1.1 = Some (Anterior.ICarrera.nombre c) ∧
        (Anterior.ICarrera.cupos <$> r.1.2) =
          <[mayusculas nc := Anterior.ICarrera.cupos c - 1]>
            (Anterior.ICarrera.cupos <$> carreras)) ∧
     (¬ valida aspirante (mayusculas nc) carreras →
        r.1.1 = aspirante ∧ r.1.2 = carreras)) ∧
  (nombreCarrera = None ∨ nombreCarrera = Some "" →
     Anterior.Aspirante.estadoCupo r.1.1 = ACEPTADO ∧
     Anterior.Aspirante.carreraAsignada r.1.1 = None ∧
     r.1.2 = carreras).
Proof.
  intros r. subst r. unfold procesarEstadoCon. split_and!.
  - destruct nombreCarrera as [[|ch s]|]; try done.
    destruct (carreras !! mayusculas (String ch s)) as [c|]; [|done].
    by destruct (Anterior.validar aspirante c).
  - intros nc -> Hnc. destruct nc as [|ch s]; [done|]. split.
    + intros c Hc Hmin Hpos. rewrite Hc.
      rewrite (proj2 (validar_true aspirante c)) by done. simpl.
      split_and!; [done..|]. by rewrite fmap_insert.
    + intros Hno.
      destruct (carreras !! mayusculas (String ch s)) as [c|] eqn:Hc; [|done].
      destruct (Anterior.validar aspirante c) eqn:Hv; [|done].
      exfalso. apply Hno. apply validar_true in Hv as [??]. by exists c.
  - by intros [->| ->].
Qed.

Lemma procesarEstado_aceptar_testigo :
  Anterior.Aspirante.estadoCupo
    (procesarEstadoCon mayusculasConTilde
       (Anterior.Aspirante.mk "Kevin" "Pinkay" "1302" 85 "DERECHO" None PENDIENTE)
       ACEPTADO (Some "ingeniería civil") carrerasAnteriores).1.1 = ACEPTADO ∧
  Anterior.Aspirante.carreraAsignada
    (procesarEstadoCon mayusculasConTilde
       (Anterior.Aspirante.mk "Kevin" "Pinkay" "1302" 85 "DERECHO" None PENDIENTE)
       ACEPTADO (Some "ingeniería civil") carrerasAnteriores).1.1
    = Some "INGENIERÍA CIVIL".
Proof.
  destruct (procesarEstado_aceptar mayusculasConTilde
              (Anterior.Aspirante.mk "Kevin" "Pinkay" "1302" 85 "DERECHO" None
                 PENDIENTE)
              (Some "ingeniería civil") carrerasAnteriores) as (_ & Hcon & _).
  destruct (Hcon "ingeniería civil" eq_refl) as [Hacepta _]; [discriminate|].
  destruct (Hacepta (Anterior.ICarrera.mk "INGENIERÍA CIVIL" 100 80))
    as (He & Hc & _).
  - vm_compute. reflexivity.
  - vm_compute. discriminate.
  - reflexivity.
  - split; [exact He|exact Hc].
Defined.

(** ** The earlier repository *)

Lemma Map_set_claves {V} (k : string) (v : V) m :
  (RepositorioAnterior.Map_set k v m).*1 =
  if decide (k ∈ m.*1) then m.*1 else m.*1 ++ [k].
Proof.
  induction m as [|[k' v'] m IH].
  - destruct (decide (k ∈ ([] : list (string * V)).*1)) as [Hin|_]; [|done].
    by apply elem_of_nil in Hin.
  - cbn [RepositorioAnterior.Map_set].
    destruct (decide (k' = k)) as [->|Hne].
    + destruct (decide (k ∈ ((k, v') :: m).*1)) as [_|Hnot]; [done|].
      exfalso. apply Hnot. rewrite fmap_cons. left.
    + destruct (decide (k ∈ ((k', v') :: m).*1)) as [Hin'|Hnot'];
        rewrite fmap_cons, IH; rewrite fmap_cons in *;
        destruct (decide (k ∈ m.*1)) as [Hin|Hnot]; try done.
      * exfalso. apply elem_of_cons in Hin' as [?|?]; by subst.
      * exfalso. apply Hnot'. by right.
Qed.

Lemma Map_set_elem_of {V} (k : string) (v : V) m k' v' :
  NoDup m.*1 →
  (k', v') ∈ RepositorioAnterior.Map_set k v m ↔
  (k', v') = (k, v) ∨ ((k', v') ∈ m ∧ k' ≠ k).
Proof.
  induction m as [|[k0 v0] m IH]; simpl; intros Hnd.
  - rewrite list_elem_of_singleton. split; [by left|].
    intros [?|[?%elem_of_nil _]]; done.
  - apply NoDup_cons in Hnd as [Hk0 Hnd].
    destruct (decide (k0 = k)) as [->|Hne].
    + rewrite !elem_of_cons. split.
      * intros [?|Hin]; [by left|]. right. split; [by right|].
        intros ->. apply Hk0. apply list_elem_of_fmap. by exists (k, v').
      * intros [?|[[[= -> ->]|Hin] Hk]]; [by left|done|by right].
    + rewrite !elem_of_cons, (IH Hnd). split.
      * intros [[= -> ->]|[?|[Hin Hk]]]; [|by left|].
        -- right. split; [by left|done].
        -- right. split; [by right|done].
      * intros [?|[[[= -> ->]|Hin] Hk]]; [by right; left|by left|].
        right. right. done.
Qed.

Lemma registrar_ok a repo :
  repositorio_ok repo → repositorio_ok (RepositorioAnterior.registrar a repo).
Proof.
  intros [Hnd Hkeys]. unfold RepositorioAnterior.registrar. split.
  - rewrite Map_set_claves. case_decide; [done|].
    apply NoDup_app. split_and!; [done| |apply NoDup_singleton].
    intros x Hx ->%list_elem_of_singleton. done.
  - apply Forall_forall. intros [k b] Hin.
    apply Map_set_elem_of in Hin as [[= -> ->]|[Hin _]]; [done| |done].
    rewrite Forall_forall in Hkeys. by apply (Hkeys (k, b)).
Qed.

(** X18. The earlier repository holds one candidate per [cedula]:
    registering keeps the entries distinct, and afterwards the repository
    lists the new candidate together with the earlier ones of another
    [cedula]; an earlier candidate of the same [cedula] is replaced. *)
Theorem registrar_por_cedula (a : Anterior.Aspirante.t)
    (repo : list (string * Anterior.Aspirante.t)) :
  repositorio_ok repo →
  repositorio_ok (RepositorioAnterior.registrar a repo) ∧
  ∀ b, b ∈ RepositorioAnterior.obtenerTodos (RepositorioAnterior.registrar a repo) ↔
       b = a ∨ (b ∈ RepositorioAnterior.obtenerTodos repo ∧
                Anterior.Aspirante.cedula b ≠ Anterior.Aspirante.cedula a).
Proof.
  intros Hok. split; [by apply registrar_ok|].
  destruct Hok as [Hnd Hkeys]. unfold RepositorioAnterior.registrar.
  assert (∀ k b, (k, b) ∈ repo → k = Anterior.Aspirante.cedula b) as Hkey.
  { intros k b Hin. rewrite Forall_forall in Hkeys. by apply (Hkeys (k, b)). }
  intros b. unfold RepositorioAnterior.obtenerTodos.
  rewrite !list_elem_of_fmap. split.
  - intros ([k b'] & -> & Hin). simpl.
    apply Map_set_elem_of in Hin as [[= -> ->]|[Hin Hk]]; [by left| |done].
    right. split; [by exists (k, b')|].
    by rewrite <- (Hkey k b' Hin).
  - intros [->|(([k b'] & -> & Hin) & Hne)]; simpl in *.
    + exists (Anterior.Aspirante.cedula a, a). split; [done|].
      apply Map_set_elem_of; [done|]. by left.
    + exists (k, b'). split; [done|].
      apply Map_set_elem_of; [done|]. right. split; [done|].
      by rewrite (Hkey k b' Hin).
Qed.

Lemma registrados_ok l : repositorio_ok (RepositorioAnterior.registrados l).
Proof.
  unfold RepositorioAnterior.registrados.
  induction l as [|a l IH] using rev_ind.
  - split; [apply NoDup_nil_2|constructor].
  - rewrite foldl_app. simpl. by apply registrar_ok.
Qed.

Lemma registrar_por_cedula_testigo :
  repositorio_ok
    (RepositorioAnterior.registrar
       (Anterior.Aspirante.mk "Jover" "Moreira" "1301" 97 "DERECHO" None PENDIENTE)
       (RepositorioAnterior.registrados
          [Anterior.Aspirante.mk "Jover" "Moreira" "1301" 95 "MEDICINA" None PENDIENTE;
           Anterior.Aspirante.mk "Kevin" "Pinkay" "1302" 75 "DERECHO" None PENDIENTE])).
Proof.
  exact (proj1 (registrar_por_cedula _ _ (registrados_ok _))).
Defined.

(** ** Processing a candidate again *)

(** X19. The step of the batch does not look at the status it finds: a
    candidate that is already [ACEPTADO], passes the guard and has a group
    with a seat left takes one more seat when processed again, and stays
    [ACEPTADO]. *)
Theorem reproceso_consume_otro_cupo (st : Sistema) (ref : nat) (a : Aspirante.t)
    (g : Z) :
  objetos st !! ref = Some a →
  Aspirante.estadoCupo a = ACEPTADO →
  alcanza_minimo st a →
  g ∈ Aspirante.grupos a → 0 < cupoDe st (claveDe a) g →
  estadoDe (procesar st ref) ref = Some ACEPTADO ∧
  ∃ g0, g0 ∈ Aspirante.grupos a ∧
    cupoDe (procesar st ref) (claveDe a) g0 = cupoDe st (claveDe a) g0 - 1.
Proof.
  intros Ha He (c & Hc & Hmin) Hg Hpos.
  split; [by apply (procesar_con_cupo st ref a c g)|].
  rewrite (cupoDe_puedeAcceder st _ g c Hc) in Hpos.
  destruct (procesar_paso st ref a Ha)
    as [Hc'|c' Hc' Hmin'|c' Hc' Hmin' Hall|c' pre g0 post n Hc' Hmin' Hgs Hpre Hn Hpos'].
  - congruence.
  - assert (c' = c) as -> by congruence. lia.
  - assert (c' = c) as -> by congruence.
    rewrite Forall_forall in Hall. specialize (Hall g Hg).
    apply puedeAcceder_false in Hall. lia.
  - exists g0. split.
    + rewrite Hgs. apply elem_of_app. right. apply list_elem_of_here.
    + rewrite (cupoDe_lookup st _ g0 c' n) by done.
      unfold cupoDe. simpl. rewrite lookup_insert_eq. simpl.
      by rewrite lookup_insert_eq.
Qed.

Lemma reproceso_consume_otro_cupo_testigo :
  estadoDe (procesar sistemaTrasAsignacion 1%nat) 1%nat = Some ACEPTADO ∧
  ∃ g0, g0 ∈ [2; 7] ∧
    cupoDe (procesar sistemaTrasAsignacion 1%nat) "INGENIERIA" g0
    = cupoDe sistemaTrasAsignacion "INGENIERIA" g0 - 1.
Proof.
  apply (reproceso_consume_otro_cupo sistemaTrasAsignacion 1%nat
           (Aspirante.mk 2 "Luis Pincay" 85 "INGENIERIA" [2; 7]
              (Some "INGENIERIA") (Some "Segmento-7") ACEPTADO) 7).
  - vm_compute. reflexivity.
  - reflexivity.
  - eexists. split; [vm_compute; reflexivity|]. vm_compute. discriminate.
  - apply (bool_decide_unpack _). vm_compute. exact I.
  - vm_compute. reflexivity.
Defined.

(** ** The ranking decides who is seated *)

Lemma puntajeDe_lookup st ref b :
  objetos st !! ref = Some b → puntajeDe st ref = Aspirante.puntaje b.
Proof. intros H. unfold puntajeDe. by rewrite H. Qed.

Lemma procesar_cupoDe_inf st ref k g :
  cupoDe st k g - 1 ≤ cupoDe (procesar st ref) k g.
Proof.
  destruct (objetos st !! ref) as [asp|] eqn:Hasp;
    [|rewrite procesar_colgante by done; lia].
  destruct (procesar_paso st ref asp Hasp)
    as [ | | |carrera pre g0 post n Hc Hmin Hgs Hpre Hn Hpos];
    try (change (cupoDe st k g - 1 ≤ cupoDe st k g); lia).
  unfold cupoDe. simpl.
  destruct (decide (claveDe asp = k)) as [<-|Hk].
  - rewrite lookup_insert_eq, Hc. simpl.
    destruct (decide (g0 = g)) as [<-|Hg].
    + rewrite lookup_insert_eq, Hn. simpl. lia.
    + rewrite lookup_insert_ne by done. lia.
  - rewrite lookup_insert_ne by done. lia.
Qed.

Lemma lote_cupoDe_inf l st k g :
  cupoDe st k g - Z.of_nat (length l) ≤ cupoDe (foldl procesar st l) k g.
Proof.
  revert st. induction l as [|x l IH]; intros st; simpl; [lia|].
  specialize (IH (procesar st x)).
  pose proof (procesar_cupoDe_inf st x k g). lia.
Qed.

Lemma precede_antisim {A} (l : list A) x y :
  NoDup l → precede l x y → precede l y x → False.
Proof.
  intros Hnd Hxy Hyx.
  destruct (precede_lookup _ _ _ Hxy) as (i & j & Hij & Hi & Hj).
  destruct (precede_lookup _ _ _ Hyx) as (i' & j' & Hij' & Hi' & Hj').
  pose proof (NoDup_lookup _ _ _ _ Hnd Hi Hj').
  pose proof (NoDup_lookup _ _ _ _ Hnd Hj Hi'). lia.
Qed.

(** Whoever is processed before a candidate is one of its rivals. *)
Lemma delante_son_rivales st antes despues refA a l1 l2 :
  NoDup (antes ++ refA :: despues) →
  Forall (λ r, is_Some (objetos st !! r)) (antes ++ refA :: despues) →
  objetos st !! refA = Some a →
  ordenados st (antes ++ refA :: despues) = l1 ++ refA :: l2 →
  ∀ x, x ∈ l1 → x ∈ rivales st (Aspirante.puntaje a) antes despues.
Proof.
  intros Hnd Hval Ha Heq x Hx.
  pose proof (ordenados_Permutation st (antes ++ refA :: despues)) as Hperm.
  pose proof (ordenados_sorted st (antes ++ refA :: despues)) as Hsort.
  assert (NoDup (l1 ++ refA :: l2)) as HndL by (by rewrite <- Heq, Hperm).
  rewrite Heq in Hsort.
  assert (x ∈ antes ++ refA :: despues) as Hin.
  { rewrite <- Hperm, Heq. apply elem_of_app. by left. }
  assert (x ≠ refA) as Hne.
  { intros ->. apply NoDup_app in HndL as (_ & Hdis & _).
    apply (Hdis _ Hx), list_elem_of_here. }
  rewrite Forall_forall in Hval. destruct (Hval x Hin) as [b Hb].
  apply StronglySorted_app in Hsort as (Hcross & _ & _).
  specialize (Hcross x refA Hx (list_elem_of_here _ _)). simpl in Hcross.
  rewrite (puntajeDe_lookup _ _ _ Ha), (puntajeDe_lookup _ _ _ Hb) in Hcross.
  unfold rivales. apply elem_of_app.
  apply elem_of_app in Hin as [Hin|[?|Hin]%elem_of_cons]; [|done|].
  - left. apply list_elem_of_filter. split; [by exists b|done].
  - right. apply list_elem_of_filter. split; [|done]. exists b. split; [done|].
    destruct (decide (Aspirante.puntaje a < Aspirante.puntaje b)) as [?|Hno]; [done|].
    exfalso. apply (precede_antisim (l1 ++ refA :: l2) x refA HndL).
    + apply list_elem_of_split in Hx as (p & q & ->).
      exists p, q, l2. by rewrite <- (assoc_L (++)).
    + rewrite <- Heq. apply precede_por_registro; [done| |].
      * apply list_elem_of_split in Hin as (d1 & d2 & ->). by exists antes, d1, d2.
      * rewrite (puntajeDe_lookup _ _ _ Ha), (puntajeDe_lookup _ _ _ Hb). lia.
Qed.

Lemma lote_primero_con_cupo st antes despues refA a g :
  NoDup (antes ++ refA :: despues) →
  Forall (λ r, is_Some (objetos st !! r)) (antes ++ refA :: despues) →
  objetos st !! refA = Some a → alcanza_minimo st a →
  g ∈ Aspirante.grupos a →
  Z.of_nat (length (rivales st (Aspirante.puntaje a) antes despues))
    < cupoDe st (claveDe a) g →
  estadoDe (ejecutarAsignacionAutomatica (antes ++ refA :: despues) st) refA
    = Some ACEPTADO.
Proof.
  intros Hnd Hval Ha Hmin Hg Hcupo. unfold ejecutarAsignacionAutomatica.
  pose proof (ordenados_Permutation st (antes ++ refA :: despues)) as Hperm.
  assert (refA ∈ ordenados st (antes ++ refA :: despues)) as HA.
  { rewrite Hperm. apply elem_of_app. right. apply list_elem_of_here. }
  apply list_elem_of_split in HA as (l1 & l2 & Heq).
  assert (NoDup (l1 ++ refA :: l2)) as HndL by (by rewrite <- Heq, Hperm).
  pose proof (delante_son_rivales st antes despues refA a l1 l2 Hnd Hval Ha Heq)
    as Hriv.
  rewrite Heq, foldl_app. simpl.
  apply NoDup_app in HndL as (Hnd1 & Hdis & [HA2 _]%NoDup_cons).
  assert (refA ∉ l1) as HA1 by (intros H; apply (Hdis _ H), list_elem_of_here).
  assert (length l1 ≤ length (rivales st (Aspirante.puntaje a) antes despues))%nat
    as Hlen by (apply submseteq_length; by apply NoDup_submseteq).
  set (s1 := foldl procesar st l1).
  pose proof (lote_cupoDe_inf l1 st (claveDe a) g) as Hinf. fold s1 in Hinf.
  assert (objetos s1 !! refA = Some a) as Ha1 by (unfold s1; by rewrite lote_fuera).
  destruct (alcanza_minimo_conserva st s1 a a (lote_conserva l1 st) eq_refl Hmin)
    as (c1 & Hc1 & Hmin1).
  unfold estadoDe. rewrite lote_fuera by done.
  apply (procesar_con_cupo s1 refA a c1 g); try done. lia.
Qed.

(** C4. The batch ranks by score, highest first, and breaks ties by the
    order of the input array, and this ranking decides who is seated.  The
    order of processing is a permutation of the input in which no candidate
    comes before one with a higher score, and two candidates with the same
    score keep their input order.  With equal score, the same programme and
    the groups of the later one among those of the earlier one, the earlier
    of two candidates is accepted whenever the later one is.  And a
    candidate that passes the guard is accepted when one of its groups has
    more seats than there are candidates ranked ahead of it: those before it
    in the array with at least its score and those after it with a higher
    score. *)
Theorem ranking_por_puntaje_y_registro :
  (∀ st refs,
     ordenados st refs ≡ₚ refs ∧
     StronglySorted
       (λ x y, ∀ a b, objetos st !! x = Some a → objetos st !! y = Some b →
                 Aspirante.puntaje b ≤ Aspirante.puntaje a)
       (ordenados st refs)) ∧
  (∀ st refs x y a b,
     NoDup refs → objetos st !! x = Some a → objetos st !! y = Some b →
     Aspirante.puntaje a = Aspirante.puntaje b →
     precede refs x y → precede (ordenados st refs) x y) ∧
  (∀ st refs refA refB a b,
     NoDup refs → precede refs refA refB →
     objetos st !! refA = Some a → objetos st !! refB = Some b →
     Aspirante.puntaje a = Aspirante.puntaje b →
     claveDe a = claveDe b →
     Aspirante.grupos b ⊆ Aspirante.grupos a →
     Aspirante.estadoCupo b ≠ ACEPTADO →
     estadoDe (ejecutarAsignacionAutomatica refs st) refB = Some ACEPTADO →
     estadoDe (ejecutarAsignacionAutomatica refs st) refA = Some ACEPTADO) ∧
  (∀ st antes despues refA a g,
     NoDup (antes ++ refA :: despues) →
     Forall (λ r, is_Some (objetos st !! r)) (antes ++ refA :: despues) →
     objetos st !! refA = Some a → alcanza_minimo st a →
     g ∈ Aspirante.grupos a →
     Z.of_nat (length (rivales st (Aspirante.puntaje a) antes despues))
       < cupoDe st (claveDe a) g →
     estadoDe (ejecutarAsignacionAutomatica (antes ++ refA :: despues) st) refA
       = Some ACEPTADO).
Proof.
  split_and!.
  - intros st refs. split; [apply ordenados_Permutation|].
    eapply StronglySorted_impl; [|apply ordenados_sorted]. simpl.
    intros x y Hxy a b Ha Hb.
    by rewrite (puntajeDe_lookup _ _ _ Ha), (puntajeDe_lookup _ _ _ Hb) in Hxy.
  - intros st refs x y a b Hnd Ha Hb Heq Hpre.
    apply precede_por_registro; [done..|].
    by rewrite (puntajeDe_lookup _ _ _ Ha), (puntajeDe_lookup _ _ _ Hb).
  - intros st refs refA refB a b Hnd Hpre Ha Hb Heq Hk Hg Hno.
    unfold ejecutarAsignacionAutomatica.
    apply (lote_sin_adelantar _ st refA refB a b); try done.
    + by rewrite ordenados_Permutation.
    + apply precede_por_registro; [done..|].
      by rewrite (puntajeDe_lookup _ _ _ Ha), (puntajeDe_lookup _ _ _ Hb).
    + lia.
  - apply lote_primero_con_cupo.
Qed.

Lemma ranking_por_puntaje_y_registro_testigo :
  estadoDe
    (ejecutarAsignacionAutomatica ([] ++ 0%nat :: [1%nat])
       (registrar (nuevoAspirante 2 "Luis" 95 "ARTE" [] false)
          (registrar (nuevoAspirante 1 "Ana" 95 "ARTE" [] false)
             (Build_Sistema [] [] (configurarCarrera "ARTE" 2 None ∅) [] []))))
    0%nat = Some ACEPTADO.
Proof.
  destruct ranking_por_puntaje_y_registro as (_ & _ & _ & Hcupo).
  apply (Hcupo _ [] [1%nat] 0%nat (nuevoAspirante 1 "Ana" 95 "ARTE" [] false) 7).
  - apply (bool_decide_unpack _). vm_compute. exact I.
  - repeat constructor; eexists; vm_compute; reflexivity.
  - vm_compute. reflexivity.
  - eexists. split; [vm_compute; reflexivity|]. vm_compute. discriminate.
  - apply (bool_decide_unpack _). vm_compute. exact I.
  - vm_compute. reflexivity.
Defined.
